(** * The cute-post browser bot (bot.py), embedded and verified

    The bot is one Python script: a feed client ([fetch_subreddit]), a
    refresh pass over a fixed list of subreddits ([update_all_subreddits]),
    and two Telegram handlers ([start], [button_handler]) sharing
    [send_random_post].  The embedding below follows the script function by
    function.

    Conventions.
    - A Python [str] is a [string] of UTF-8 bytes.  [str.lower] is modelled
      on the ASCII letters only; the bytes of a non-ASCII character are all
      above 127 and are never equal to a byte of an ASCII extension, so the
      suffix test of the feed client is not affected.
    - A value decoded from JSON is a [pyval].
    - An exception is represented by its text ([str(e)]); every exception
      modelled here is an instance of [Exception].
    - [random.choice] receives its draw as an argument.
    - The outside world is an oracle: [http] answers a GET by URL (a
      refresh pass asks each URL once, the URLs of distinct subreddits being
      distinct), and [platform] decides, from the events so far, whether a
      Telegram request raises. *)

From Stdlib Require Import ZArith Ascii String List Lia.
From Stdlib Require PrimFloat.
From stdpp Require Import base strings list gmap pretty.

Set Default Proof Using "Type".

(* ===================================================================== *)
(** * Python values *)
(* ===================================================================== *)

#[warnings="-register-all"]
Inductive pyval : Type :=
| PNone
| PBool (b : bool)
| PInt (n : Z)
| PFloat (x : PrimFloat.float)
| PStr (s : string)
| PList (l : list pyval)
| PDict (d : list (string * pyval)).

Definition exn : Type := string.

(** [type(v).__name__] *)
Definition type_name (v : pyval) : string :=
  match v with
  | PNone => "NoneType"
  | PBool _ => "bool"
  | PInt _ => "int"
  | PFloat _ => "float"
  | PStr _ => "str"
  | PList _ => "list"
  | PDict _ => "dict"
  end.

(** [bool(v)] *)
Definition truthy (v : pyval) : bool :=
  match v with
  | PNone => false
  | PBool b => b
  | PInt n => negb (n =? 0)%Z
  | PFloat x => negb (PrimFloat.eqb x PrimFloat.zero)
  | PStr s => negb (String.eqb s "")
  | PList l => match l with [] => false | _ => true end
  | PDict d => match d with [] => false | _ => true end
  end.

(** The binding of key [k] in a dict kept as an association list. *)
Fixpoint assoc (k : string) (d : list (string * pyval)) : option pyval :=
  match d with
  | [] => None
  | (k', v) :: d' => if String.eqb k k' then Some v else assoc k d'
  end.

Definition attribute_error (v : pyval) (attr : string) : exn :=
  "'" +:+ type_name v +:+ "' object has no attribute '" +:+ attr +:+ "'".

Definition not_iterable (v : pyval) : exn :=
  "'" +:+ type_name v +:+ "' object is not iterable".

(** ** Strings *)

Definition lower_char (c : ascii) : ascii :=
  let n := N_of_ascii c in
  if ((65 <=? n) && (n <=? 90))%N then ascii_of_N (n + 32) else c.

(** [s.lower()] *)
Fixpoint lower (s : string) : string :=
  match s with
  | EmptyString => EmptyString
  | String c s' => String (lower_char c) (lower s')
  end.

(** [s.endswith(ext)] *)
Fixpoint endswith (s ext : string) : bool :=
  if String.eqb s ext then true
  else match s with
       | EmptyString => false
       | String _ s' => endswith s' ext
       end.

(** The characters of [s], each as a one-character string. *)
Fixpoint chars (s : string) : list string :=
  match s with
  | EmptyString => []
  | String c s' => String c EmptyString :: chars s'
  end.

(* ===================================================================== *)
(** * Effects: local state, an event trace, exceptions *)
(* ===================================================================== *)

Definition keyboard : Type := list (list (string * string)).

Inductive level : Type := INFO | WARNING.

Inductive request : Type :=
| ReplyText (text : string)
| ReplyPhoto (photo caption : string) (reply_markup : keyboard)
| BotEditMessageMedia (chat_id message_id : Z) (media caption : string)
                      (reply_markup : keyboard)
| QueryAnswer
| QueryEditMessageCaption (caption : string)
| QueryEditMessageMedia (media caption : string) (reply_markup : keyboard).

Inductive event : Type :=
| Logged (lv : level) (msg : string)
| Called (r : request).

(** The chat platform: given what happened so far, does this request raise? *)
Definition platform : Type := list event -> request -> option exn.

Inductive result (A : Type) : Type :=
| Ret (a : A)
| Raise (e : exn).
Arguments Ret {A} a.
Arguments Raise {A} e.

Record st (L : Type) : Type := St { locals : L; events : list event }.
Arguments St {L} locals events.
Arguments locals {L} s.
Arguments events {L} s.

Definition M (L A : Type) : Type := st L -> st L * result A.

Definition ret {L A} (a : A) : M L A := fun s => (s, Ret a).

Definition bind {L A B} (m : M L A) (k : A -> M L B) : M L B :=
  fun s => match m s with
           | (s', Ret a) => k a s'
           | (s', Raise e) => (s', Raise e)
           end.

Definition raise {L A} (e : exn) : M L A := fun s => (s, Raise e).

(** [try: body / except Exception as e: handler e] *)
Definition try_except {L A} (body : M L A) (handler : exn -> M L A) : M L A :=
  fun s => match body s with
           | (s', Raise e) => handler e s'
           | r => r
           end.

Definition get {L} : M L L := fun s => (s, Ret (locals s)).

Definition modify {L} (f : L -> L) : M L unit :=
  fun s => (St (f (locals s)) (events s), Ret tt).

Definition emit {L} (ev : event) : M L unit :=
  fun s => (St (locals s) (events s ++ [ev]), Ret tt).

(** A callee with locals of its own, sharing the caller's event trace. *)
Definition scoped {L L' A} (l0 : L') (m : M L' A) : M L A :=
  fun s => match m (St l0 (events s)) with
           | (s', r) => (St (locals s) (events s'), r)
           end.

Declare Scope py_scope.
Delimit Scope py_scope with py.
Notation "x ← y ; z" := (bind y (fun x => z))
  (at level 20, y at level 100, z at level 200, only parsing) : py_scope.
Notation "x ;; z" := (bind x (fun _ => z))
  (at level 100, z at level 200, only parsing, right associativity) : py_scope.

(** [for x in l: body x] *)
Fixpoint for_each {L A} (l : list A) (body : A -> M L unit) : M L unit :=
  match l with
  | [] => ret tt
  | x :: l' => (body x ;; for_each l' body)%py
  end.

Definition logger_info {L} (msg : string) : M L unit := emit (Logged INFO msg).
Definition logger_warning {L} (msg : string) : M L unit := emit (Logged WARNING msg).

(** What a request yields, given the platform's verdict. *)
Definition answer_of (o : option exn) : result unit :=
  match o with
  | None => Ret tt
  | Some e => Raise e
  end.

(** One awaited Telegram request. *)
Definition await (tg : platform) {L} (r : request) : M L unit :=
  fun s => (St (locals s) (events s ++ [Called r]), answer_of (tg (events s) r)).

(** ** Operations on decoded values *)

(** [v.get(k, default)] *)
Definition py_get {L} (v : pyval) (k : string) (default : pyval) : M L pyval :=
  match v with
  | PDict d => ret (match assoc k d with Some x => x | None => default end)
  | _ => raise (attribute_error v "get")
  end.

(** The items [for ... in v] walks through. *)
Definition py_iter {L} (v : pyval) : M L (list pyval) :=
  match v with
  | PList l => ret l
  | PStr s => ret (PStr <$> chars s)
  | PDict d => ret ((fun kv => PStr (fst kv)) <$> d)
  | _ => raise (not_iterable v)
  end.

(** The receiver of a [str] method: [v] itself when it is a [str],
    an [AttributeError] otherwise. *)
Definition str_receiver {L} (v : pyval) (method : string) : M L string :=
  match v with
  | PStr s => ret s
  | _ => raise (attribute_error v method)
  end.

(* ===================================================================== *)
(** * Configuration *)
(* ===================================================================== *)

Definition SUBREDDITS : list string :=
  [ "aww"; "cuteanimals"; "cats"; "dogs"; "puppies"; "kittens"; "babyanimals";
    "rarepuppers"; "animalsbeingderps"; "AnimalsBeingBros"; "AnimalPhotography";
    "corgi"; "hedgehog"; "tuckedinkitties"; "rabbits"; "guineapigs"; "otters";
    "babybeasts"; "foxes"; "cute"; "smallanimals"; "squirrels"; "hamsters";
    "chickens"; "parrots"; "ferrets"; "wildlife"; "bunnies"; "seal"; "penguins" ].

Definition MAX_POSTS_PER_SUB : nat := 50.

(** An entry of the cache: the dict built by [fetch_subreddit]. *)
Record Post : Type := mkPost {
  post_id : pyval;      (* "id" *)
  post_title : pyval;   (* "title" *)
  post_url : string     (* "url" *)
}.

(** [reddit_cache = {sub: [] for sub in SUBREDDITS}] *)
Definition reddit_cache_init : gmap string (list Post) :=
  list_to_map ((fun sub => (sub, [])) <$> SUBREDDITS).

(** [reddit_cache.get(sub, [])], where [sub] may be [None] *)
Definition cache_get (reddit_cache : gmap string (list Post))
    (sub : option string) : list Post :=
  match sub with
  | Some k => default [] (reddit_cache !! k)
  | None => []
  end.

(* ===================================================================== *)
(** * Fetching subreddits *)
(* ===================================================================== *)

(** What happens to one GET. *)
Inductive exchange : Type :=
| GetRaises (e : exn)       (* opening the session or the GET raises:
                               connection error, timeout *)
| JsonRaises (e : exn)      (* [resp.json()] raises: the body is not JSON,
                               or reading it fails or times out *)
| Decoded (data : pyval).   (* [resp.json()] returns [data] *)

Definition resp_json {L} (x : exchange) : M L pyval :=
  match x with
  | GetRaises e => raise e
  | JsonRaises e => raise e
  | Decoded data => ret data
  end.

Definition extensions : list string := [".jpg"; ".jpeg"; ".png"; ".gif"].

Definition search_url (sub : string) : string :=
  "https://api.pullpush.io/reddit/submission/search"
  +:+ "?subreddit=" +:+ sub +:+ "&size=" +:+ pretty MAX_POSTS_PER_SUB
  +:+ "&sort=new&type=link&over_18=false".

(** The body of the [for post in ...] loop; the local state is [posts]. *)
Definition fetch_entry (post : pyval) : M (list Post) unit :=
  (img_url ← py_get post "url" PNone;
   if negb (truthy img_url) then ret tt
   else
     img_url ← str_receiver img_url "lower";
     if existsb (endswith (lower img_url)) extensions then
       id ← py_get post "id" PNone;
       title ← py_get post "title" (PStr "(no title)");
       modify (fun posts => posts ++ [mkPost id title img_url])
     else ret tt)%py.

(** The [try] block of [fetch_subreddit]. *)
Definition fetch_try (http : string -> exchange) (url : string)
  : M (list Post) unit :=
  (data ← resp_json (http url);
   entries ← py_get data "data" (PList []);
   items ← py_iter entries;
   for_each items fetch_entry)%py.

Definition fetch_subreddit (http : string -> exchange) (sub : string)
  : M (list Post) (list Post) :=
  (let url := search_url sub in
   modify (fun _ => []) ;;
   try_except
     (fetch_try http url)
     (fun e => logger_warning ("Failed to fetch " +:+ sub +:+ ": " +:+ e)) ;;
   get)%py.

(** The body of the [for sub in SUBREDDITS] loop; the local state is
    [reddit_cache]. *)
Definition refresh_step (http : string -> exchange) (sub : string)
  : M (gmap string (list Post)) unit :=
  (posts ← scoped [] (fetch_subreddit http sub);
   match posts with
   | _ :: _ =>
       modify (fun reddit_cache => <[sub := posts]> reddit_cache) ;;
       logger_info ("Fetched " +:+ pretty (length posts)
                    +:+ " posts from r/" +:+ sub)
   | [] => logger_info ("No posts found for r/" +:+ sub)
   end)%py.

Definition update_all_subreddits (http : string -> exchange)
  : M (gmap string (list Post)) unit :=
  (for_each SUBREDDITS (refresh_step http) ;;
   logger_info "Reddit cache updated.")%py.

(* ===================================================================== *)
(** * Keyboard *)
(* ===================================================================== *)

Definition navigation_keyboard : keyboard :=
  [ [ ("⬅️ Prev", "prev"); ("🔁 Random", "random"); ("➡️ Next", "next") ] ].

(* ===================================================================== *)
(** * Handlers *)
(* ===================================================================== *)

(** [context.user_data], a dict with at most the keys "last_sub" and
    "last_post". *)
Record user_data : Type := UserData {
  last_sub : option string;
  last_post : option Post
}.

Record CallbackQuery : Type := mkQuery {
  data : string;           (* [query.data] *)
  message_id : Z           (* [query.message.message_id] *)
}.

(** An update carries either a message (a command) or a callback query (a
    button press): [update.message] is [None] exactly when
    [update.callback_query] is not. *)
Record Update : Type := mkUpdate {
  effective_chat_id : Z;                   (* [update.effective_chat.id] *)
  callback_query : option CallbackQuery    (* [update.callback_query] *)
}.

Definition nl : string := String "010"%char EmptyString.

(** The element of [seq] that the number [r] designates. *)
Definition pick {A} (r : nat) (seq : list A) : option A :=
  seq !! (r mod length seq)%nat.
Arguments pick : simpl never.

(** [random.choice(seq)]; [r] is the number drawn. *)
Definition choice {L A} (r : nat) (seq : list A) : M L A :=
  match pick r seq with
  | Some x => ret x
  | None => raise "Cannot choose from an empty sequence"
  end.

(** [f"{sub}"] for the value of [user_data.get("last_sub")] *)
Definition format_sub (sub : option string) : string :=
  match sub with
  | Some s => s
  | None => "None"
  end.

Definition GREETING : string :=
  "Hey yx babe, Cheng is finding a random cute post…".

Definition OOPS : string :=
  "Oops, something went wrong lol, try again later.".

Section Handlers.

(** The chat platform, the cache the handlers read, and [str()] as the
    f-strings apply it to a title. *)
Variable tg : platform.
Variable reddit_cache : gmap string (list Post).
Variable py_str : pyval -> string.

(** [r1] and [r2] are the first and the second number drawn during the
    call. *)
Definition send_random_post (update : Update) (r1 r2 : nat)
    (message_id : option Z) : M user_data unit :=
  (sub ← choice r1 SUBREDDITS;
   let posts := cache_get reddit_cache (Some sub) in
   match posts with
   | [] => await tg (ReplyText OOPS)
   | _ :: _ =>
       post ← choice r2 posts;
       modify (fun ud => UserData (Some sub) (last_post ud)) ;;
       modify (fun ud => UserData (last_sub ud) (Some post)) ;;
       let caption := py_str (post_title post) +:+ nl +:+ "/r/" +:+ sub in
       match message_id with
       | Some mid =>
           if (mid =? 0)%Z then
             await tg (ReplyPhoto (post_url post) caption navigation_keyboard)
           else
             await tg (BotEditMessageMedia (effective_chat_id update) mid
                         (post_url post) caption navigation_keyboard)
       | None =>
           await tg (ReplyPhoto (post_url post) caption navigation_keyboard)
       end
   end)%py.

Definition start (update : Update) (r1 r2 : nat) : M user_data unit :=
  match callback_query update with
  | Some _ => raise (attribute_error PNone "reply_text")
  | None =>
      (await tg (ReplyText GREETING) ;;
       send_random_post update r1 r2 None)%py
  end.

Definition button_handler (update : Update) (r1 r2 : nat)
  : M user_data unit :=
  match callback_query update with
  | None => raise (attribute_error PNone "answer")
  | Some query =>
      (await tg QueryAnswer ;;
       let action := data query in
       ud ← get;
       let sub := last_sub ud in
       let posts := cache_get reddit_cache sub in
       match posts with
       | [] =>
           await tg (QueryEditMessageCaption
                       ("No cached posts for r/" +:+ format_sub sub +:+ "."))
       | _ :: _ =>
           if String.eqb action "random" then
             send_random_post update r1 r2 (Some (message_id query))
           else
             new_post ← choice r1 posts;
             modify (fun ud => UserData (last_sub ud) (Some new_post)) ;;
             let caption :=
               py_str (post_title new_post) +:+ nl +:+ "/r/"
               +:+ format_sub sub in
             try_except
               (await tg (QueryEditMessageMedia (post_url new_post) caption
                            navigation_keyboard))
               (fun e => logger_warning ("Failed to edit media: " +:+ e))
       end)%py
  end.

End Handlers.

(** The handlers [main] registers. *)
Inductive handler : Type := Start | Button.

Definition dispatch (tg : platform) (reddit_cache : gmap string (list Post))
    (py_str : pyval -> string) (h : handler)
  : Update -> nat -> nat -> M user_data unit :=
  match h with
  | Start => start tg reddit_cache py_str
  | Button => button_handler tg reddit_cache py_str
  end.

(** [str()] on the titles the examples below use: text, [None], booleans
    and integers. *)
Definition str_basic (v : pyval) : string :=
  match v with
  | PStr s => s
  | PNone => "None"
  | PBool true => "True"
  | PBool false => "False"
  | PInt n => pretty n
  | _ => ""
  end.

Definition st0 {L} (l : L) : st L := St l [].
Definition quiet : platform := fun _ _ => None.

(* ===================================================================== *)
(** * Derived notions used by the statements *)
(* ===================================================================== *)

(** What one call of [fetch_subreddit] returns and logs, started from an
    empty trace. *)
Definition fetched (http : string -> exchange) (sub : string) : list Post :=
  locals (fst (fetch_subreddit http sub (st0 []))).

Definition fetch_log (http : string -> exchange) (sub : string) : list event :=
  events (fst (fetch_subreddit http sub (st0 []))).

(** The items the loop of [fetch_subreddit] is given: none when the loop
    is not reached. *)
Definition items_of (x : exchange) : list pyval :=
  match x with
  | Decoded (PDict d) =>
      match default (PList []) (assoc "data" d) with
      | PList l => l
      | PStr s => PStr <$> chars s
      | PDict d' => (fun kv => PStr (fst kv)) <$> d'
      | _ => []
      end
  | _ => []
  end.

Definition entry_count (x : exchange) : nat := length (items_of x).

(** The cache after the refresh of one subreddit. *)
Definition refreshed (http : string -> exchange) (sub : string)
    (reddit_cache : gmap string (list Post)) : gmap string (list Post) :=
  match fetched http sub with
  | [] => reddit_cache
  | posts => <[sub := posts]> reddit_cache
  end.

(** The cache after [update_all_subreddits]. *)
Definition cache_after (http : string -> exchange)
    (reddit_cache : gmap string (list Post)) : gmap string (list Post) :=
  locals (fst (update_all_subreddits http (st0 reddit_cache))).

(** [u], lowered, is some text followed by one of the extensions. *)
Definition has_image_suffix (u : string) : Prop :=
  ∃ ext stem, ext ∈ extensions ∧ lower u = stem +:+ ext.

(** A computation that reads nothing from the trace and only appends to it. *)
Definition logs_only {L A} (m : M L A) : Prop :=
  ∀ l ev, m (St l ev) =
          (St (locals (fst (m (St l [])))) (ev ++ events (fst (m (St l [])))),
           snd (m (St l []))).

(** The photo and caption an event puts on screen, if it renders a post. *)
Definition rendering (ev : event) : option (string * string) :=
  match ev with
  | Called (ReplyPhoto photo caption _) => Some (photo, caption)
  | Called (BotEditMessageMedia _ _ media caption _) => Some (media, caption)
  | Called (QueryEditMessageMedia media caption _) => Some (media, caption)
  | _ => None
  end.

(** The request by which [send_random_post] shows a post. *)
Definition render_request (update : Update) (message_id : option Z)
    (photo caption : string) : request :=
  match message_id with
  | Some mid =>
      if (mid =? 0)%Z then ReplyPhoto photo caption navigation_keyboard
      else BotEditMessageMedia (effective_chat_id update) mid photo caption
             navigation_keyboard
  | None => ReplyPhoto photo caption navigation_keyboard
  end.

(** The caption under a post of subreddit [sub]. *)
Definition caption_of (py_str : pyval -> string) (post : Post) (sub : string)
  : string :=
  py_str (post_title post) +:+ nl +:+ "/r/" +:+ sub.

(** The events of an awaited edit that is wrapped in [try]/[except]. *)
Definition guarded_edit (tg : platform) (evs : list event) (r : request)
  : list event :=
  Called r ::
  match tg evs r with
  | None => []
  | Some e => [Logged WARNING ("Failed to edit media: " +:+ e)]
  end.

(* ===================================================================== *)
(** * Sample inputs *)
(* ===================================================================== *)

Definition cat_post : Post := mkPost (PStr "1") (PStr "A cat") "http://x/a.jpg".

Definition cat_entry : pyval :=
  PDict [("id", PStr "1"); ("title", PStr "A cat"); ("url", PStr "http://x/a.jpg")].

(** A cache in which only "cats" has been filled. *)
Definition cats_only : gmap string (list Post) :=
  <["cats" := [cat_post]]> reddit_cache_init.

(** A button press on message 9 of chat 5. *)
Definition press (action : string) : Update :=
  mkUpdate 5 (Some (mkQuery action 9)).

(** The /start command in chat 5. *)
Definition command : Update := mkUpdate 5 None.

(** A platform that refuses every media edit. *)
Definition edit_rejected : platform :=
  fun _ r =>
    match r with
    | BotEditMessageMedia _ _ _ _ _ | QueryEditMessageMedia _ _ _ =>
        Some "Message is not modified"
    | _ => None
    end.

(** A search service that cannot be reached. *)
Definition http_down : string -> exchange :=
  fun _ => GetRaises "Cannot connect to host api.pullpush.io:443".

(** A search service that answers every query with [n] copies of one image
    post. *)
Definition http_many (n : nat) : string -> exchange :=
  fun _ => Decoded (PDict [("data", PList (replicate n cat_entry))]).

(** A search service whose answer has a number where the second post
    should be. *)
Definition http_garbled : string -> exchange :=
  fun _ => Decoded (PDict [("data", PList [cat_entry; PInt 7; cat_entry])]).

(* ===================================================================== *)
(** * The refresh loop *)
(* ===================================================================== *)

(** [await asyncio.sleep(seconds)]: time passes; neither the cache nor the
    trace changes. *)
Definition asyncio_sleep {L} (seconds : nat) : M L unit := ret tt.

(** The first [rounds] turns of the [while True] loop of
    [periodic_reddit_update]; [https k] answers the GETs of turn [k]. *)
Fixpoint periodic_reddit_update (rounds : nat)
    (https : nat -> string -> exchange) : M (gmap string (list Post)) unit :=
  match rounds with
  | 0 => ret tt
  | S n =>
      (update_all_subreddits (https 0) ;;
       asyncio_sleep (60 * 15) ;;
       periodic_reddit_update n (fun k => https (S k)))%py
  end.

(** The states of [reddit_cache]: its initial value, and what the only
    assignment to it, in the loop of [update_all_subreddits], makes of an
    earlier state. *)
Inductive reachable : gmap string (list Post) -> Prop :=
| reachable_init : reachable reddit_cache_init
| reachable_step http sub cache evs :
    reachable cache ->
    sub ∈ SUBREDDITS ->
    reachable (locals (fst (refresh_step http sub (St cache evs)))).

(* ===================================================================== *)
(** * Notions for the further properties *)
(* ===================================================================== *)

(** The exception the loop body of [fetch_subreddit] raises on an item, if
    any: the item is not an object, or its "url" is truthy and not text. *)
Definition entry_error (item : pyval) : option exn :=
  match item with
  | PDict d =>
      match assoc "url" d with
      | Some (PStr _) | None => None
      | Some v => if truthy v then Some (attribute_error v "lower") else None
      end
  | _ => Some (attribute_error item "get")
  end.

(** The post the loop body appends for an item, if any. *)
Definition entry_post (item : pyval) : option Post :=
  match item with
  | PDict d =>
      match assoc "url" d with
      | Some (PStr u) =>
          if existsb (endswith (lower u)) extensions
          then Some (mkPost (default PNone (assoc "id" d))
                       (default (PStr "(no title)") (assoc "title" d)) u)
          else None
      | _ => None
      end
  | _ => None
  end.

(** The posts appended and the exception raised, if any, by the loop over
    [items]. *)
Fixpoint walk (items : list pyval) : list Post * option exn :=
  match items with
  | [] => ([], None)
  | item :: rest =>
      match entry_error item with
      | Some e => ([], Some e)
      | None => (option_list (entry_post item) ++ fst (walk rest),
                 snd (walk rest))
      end
  end.

Definition fetch_warning (sub : string) (e : exn) : event :=
  Logged WARNING ("Failed to fetch " +:+ sub +:+ ": " +:+ e).

(** The events a computation adds to the trace of [s]. *)
Definition added {L A} (m : M L A) (s : st L) : list event :=
  drop (length (events s)) (events (fst (m s))).

Definition is_log (ev : event) : bool :=
  match ev with
  | Logged _ _ => true
  | Called _ => false
  end.

Definition is_request (ev : event) : bool := negb (is_log ev).

(** A request that puts a new message in the chat. *)
Definition sends_message (ev : event) : bool :=
  match ev with
  | Called (ReplyText _) | Called (ReplyPhoto _ _ _) => true
  | _ => false
  end.

Definition shows_post (ev : event) : bool :=
  match rendering ev with
  | Some _ => true
  | None => false
  end.

(** The inline keyboard a request attaches. *)
Definition reply_markup_of (ev : event) : option keyboard :=
  match ev with
  | Called (ReplyPhoto _ _ kb) => Some kb
  | Called (BotEditMessageMedia _ _ _ _ kb) => Some kb
  | Called (QueryEditMessageMedia _ _ kb) => Some kb
  | _ => None
  end.

(** Every cached post has a "url" with an image suffix, and the keys are
    those of [SUBREDDITS]. *)
Definition cache_ok (cache : gmap string (list Post)) : Prop :=
  ∀ sub,
    (is_Some (cache !! sub) ↔ sub ∈ SUBREDDITS)
    ∧ Forall (λ p, has_image_suffix (post_url p)) (cache_get cache (Some sub)).

(** [user_data] holds both keys or none, and "last_sub" is one of
    [SUBREDDITS]. *)
Definition session_wf (ud : user_data) : Prop :=
  match last_sub ud, last_post ud with
  | None, None => True
  | Some sub, Some _ => sub ∈ SUBREDDITS
  | _, _ => False
  end.

(** What one call of a handler does to [user_data] and adds to the trace,
    be it left by [return] or by an exception. *)
Inductive shape (tg : platform) (cache : gmap string (list Post))
    (py_str : pyval -> string) (update : Update) (s : st user_data)
  : user_data -> list event -> Prop :=
| shape_raised :
    shape tg cache py_str update s (locals s) []
| shape_first first :
    first ∈ [ReplyText GREETING; QueryAnswer] ->
    shape tg cache py_str update s (locals s) [Called first]
| shape_oops first :
    first ∈ [ReplyText GREETING; QueryAnswer] ->
    shape tg cache py_str update s (locals s)
      [Called first; Called (ReplyText OOPS)]
| shape_notice :
    cache_get cache (last_sub (locals s)) = [] ->
    shape tg cache py_str update s (locals s)
      [Called QueryAnswer;
       Called (QueryEditMessageCaption
                 ("No cached posts for r/" +:+ format_sub (last_sub (locals s))
                  +:+ "."))]
| shape_shown first mid sub post :
    first ∈ [ReplyText GREETING; QueryAnswer] ->
    sub ∈ SUBREDDITS ->
    post ∈ cache_get cache (Some sub) ->
    shape tg cache py_str update s (UserData (Some sub) (Some post))
      [Called first;
       Called (render_request update mid (post_url post)
                 (caption_of py_str post sub))]
| shape_drawn sub post :
    last_sub (locals s) = Some sub ->
    post ∈ cache_get cache (Some sub) ->
    shape tg cache py_str update s (UserData (Some sub) (Some post))
      (Called QueryAnswer
       :: guarded_edit tg (events s ++ [Called QueryAnswer])
            (QueryEditMessageMedia (post_url post) (caption_of py_str post sub)
               navigation_keyboard)).

(** ** Further sample inputs *)

(** An entry with neither "id" nor "title", and a video. *)
Definition bare_entry : pyval := PDict [("url", PStr "http://x/b.PNG")].
Definition video_entry : pyval :=
  PDict [("id", PStr "2"); ("title", PStr "clip"); ("url", PStr "http://x/c.mp4")].

Definition bare_post : Post :=
  mkPost PNone (PStr "(no title)") "http://x/b.PNG".

(** A search service that answers "cats" with three entries and every
    other subreddit with none. *)
Definition http_cats : string -> exchange :=
  fun url =>
    if String.eqb url (search_url "cats")
    then Decoded (PDict [("data", PList [cat_entry; video_entry; bare_entry])])
    else Decoded (PDict [("data", PList [])]).

(** A cache in which "cats" holds two posts. *)
Definition two_cats : gmap string (list Post) :=
  <["cats" := [cat_post; bare_post]]> reddit_cache_init.

(** A platform on which the callback query has expired. *)
Definition answer_expired : platform :=
  fun _ r =>
    match r with
    | QueryAnswer =>
        Some "Query is too old and response timeout expired or query id is invalid"
    | _ => None
    end.

(** A search service whose answers are not objects. *)
Definition http_list : string -> exchange :=
  fun _ => Decoded (PList [cat_entry]).

(* ===================================================================== *)
(** * Strings *)
(* ===================================================================== *)

Lemma length_append (a b : string) :
  String.length (a +:+ b) = String.length a + String.length b.
Proof. induction a; simpl; auto. Qed.

Lemma append_inj_l (a b r : string) : a +:+ r = b +:+ r → a = b.
Proof.
  revert b. induction a as [|c a IH]; intros [|c' b] H; simpl in *.
  - done.
  - apply (f_equal String.length) in H.
    rewrite !length_append in H. simpl in H. lia.
  - apply (f_equal String.length) in H.
    rewrite !length_append in H. simpl in H. lia.
  - injection H as -> H. by rewrite (IH b H).
Qed.

Lemma search_url_inj (a b : string) : search_url a = search_url b → a = b.
Proof.
  unfold search_url. intros H.
  do 2 apply String.app_inj in H. by apply append_inj_l in H.
Qed.

Lemma endswith_refl (ext : string) : endswith ext ext = true.
Proof. destruct ext; cbn [endswith]; by rewrite String.eqb_refl. Qed.

Lemma endswith_spec (s ext : string) :
  endswith s ext = true ↔ ∃ stem, s = stem +:+ ext.
Proof.
  split.
  - induction s as [|c s IH]; cbn [endswith].
    + destruct (String.eqb "" ext) eqn:E; [|done].
      apply String.eqb_eq in E as <-. by exists "".
    + destruct (String.eqb (String c s) ext) eqn:E.
      * apply String.eqb_eq in E as <-. by exists "".
      * intros [stem ->]%IH. by exists (String c stem).
  - intros [stem ->]. induction stem as [|c stem IH]; simpl.
    + apply endswith_refl.
    + change (String c stem +:+ ext) with (String c (stem +:+ ext)).
      cbn [endswith]. by case_match.
Qed.

Lemma existsb_endswith (u : string) :
  existsb (endswith (lower u)) extensions = true ↔ has_image_suffix u.
Proof.
  rewrite existsb_exists. unfold has_image_suffix. split.
  - intros (ext & Hin & [stem Hs]%endswith_spec).
    exists ext, stem. by rewrite list_elem_of_In.
  - intros (ext & stem & Hin & Hs). exists ext.
    rewrite <-list_elem_of_In, endswith_spec. eauto.
Qed.

(* ===================================================================== *)
(** * The effect layer *)
(* ===================================================================== *)

Section LogsOnly.
Context {L : Type}.

Lemma logs_only_ret {A} (a : A) : logs_only (L:=L) (ret a).
Proof. intros l ev. unfold ret; simpl. by rewrite app_nil_r. Qed.

Lemma logs_only_raise {A} e : logs_only (L:=L) (A:=A) (raise e).
Proof. intros l ev. unfold raise; simpl. by rewrite app_nil_r. Qed.

Lemma logs_only_get : logs_only (L:=L) get.
Proof. intros l ev. unfold get; simpl. by rewrite app_nil_r. Qed.

Lemma logs_only_modify f : logs_only (L:=L) (modify f).
Proof. intros l ev. unfold modify; simpl. by rewrite app_nil_r. Qed.

Lemma logs_only_emit e : logs_only (L:=L) (emit e).
Proof. by intros l ev. Qed.

Lemma logs_only_bind {A B} (m : M L A) (k : A → M L B) :
  logs_only m → (∀ a, logs_only (k a)) → logs_only (bind m k).
Proof.
  intros Hm Hk l ev. unfold bind. rewrite (Hm l ev).
  destruct (m (St l [])) as [[l1 e1] [a|e]]; simpl; [|done].
  rewrite (Hk a l1 (ev ++ e1)), (Hk a l1 e1).
  destruct (k a (St l1 [])) as [[l2 e2] r]; simpl. by rewrite app_assoc.
Qed.

Lemma logs_only_try_except {A} (m : M L A) (h : exn → M L A) :
  logs_only m → (∀ e, logs_only (h e)) → logs_only (try_except m h).
Proof.
  intros Hm Hh l ev. unfold try_except. rewrite (Hm l ev).
  destruct (m (St l [])) as [[l1 e1] [a|e]]; simpl; [done|].
  rewrite (Hh e l1 (ev ++ e1)), (Hh e l1 e1).
  destruct (h e (St l1 [])) as [[l2 e2] r]; simpl. by rewrite app_assoc.
Qed.

Lemma logs_only_for_each {A} (l : list A) (body : A → M L unit) :
  (∀ x, logs_only (body x)) → logs_only (for_each l body).
Proof.
  intros Hb. induction l as [|x l IH]; simpl.
  - apply logs_only_ret.
  - apply logs_only_bind; auto.
Qed.

Lemma logs_only_scoped {L' A} (l0 : L') (m : M L' A) :
  logs_only m → logs_only (L:=L) (scoped l0 m).
Proof.
  intros Hm l ev. unfold scoped; simpl. rewrite (Hm l0 ev).
  by destruct (m (St l0 [])) as [[l1 e1] r].
Qed.

Lemma logs_only_py_get v k d : logs_only (L:=L) (py_get v k d).
Proof. destruct v; simpl; auto using logs_only_ret, logs_only_raise. Qed.

Lemma logs_only_py_iter v : logs_only (L:=L) (py_iter v).
Proof. destruct v; simpl; auto using logs_only_ret, logs_only_raise. Qed.

Lemma logs_only_str_receiver v m : logs_only (L:=L) (str_receiver v m).
Proof. destruct v; simpl; auto using logs_only_ret, logs_only_raise. Qed.

Lemma logs_only_resp_json x : logs_only (L:=L) (resp_json x).
Proof. destruct x; simpl; auto using logs_only_ret, logs_only_raise. Qed.

(** An invariant of the locals that every round of a loop keeps, whether
    the round returns or raises, holds when the loop is left. *)
Lemma for_each_invariant {A} (P : L → Prop) (body : A → M L unit) l :
  (∀ x s, P (locals s) → P (locals (fst (body x s)))) →
  ∀ s, P (locals s) → P (locals (fst (for_each l body s))).
Proof.
  intros Hb. induction l as [|x l IH]; intros s Hs; simpl; [done|].
  unfold bind. specialize (Hb x s Hs).
  destruct (body x s) as [s1 [[]|e]]; simpl in *; auto.
Qed.
End LogsOnly.

Create HintDb logs_only discriminated.
#[export] Hint Resolve logs_only_ret logs_only_raise logs_only_get
  logs_only_modify logs_only_emit logs_only_py_get logs_only_py_iter
  logs_only_str_receiver logs_only_resp_json : logs_only.

Ltac logs_only :=
  repeat first
    [ apply logs_only_bind; [|intros ?]
    | apply logs_only_try_except; [|intros ?]
    | apply logs_only_for_each; intros ?
    | apply logs_only_scoped
    | progress eauto with logs_only
    | match goal with |- logs_only (if ?b then _ else _) => destruct b end
    | match goal with |- logs_only (match ?x with _ => _ end) => destruct x end ].

(* ===================================================================== *)
(** * The feed client *)
(* ===================================================================== *)

Lemma logs_only_fetch_entry post : logs_only (fetch_entry post).
Proof. unfold fetch_entry. logs_only. Qed.

Lemma logs_only_fetch_subreddit http sub : logs_only (fetch_subreddit http sub).
Proof.
  unfold fetch_subreddit, fetch_try, logger_warning.
  logs_only.
Qed.

(** One round of the loop either leaves [posts] alone (returning or
    raising), or appends the post of an entry whose "url" is text with an
    image suffix. *)
Lemma fetch_entry_cases post s :
  fetch_entry post s = (s, Ret tt)
  ∨ (∃ e, fetch_entry post s = (s, Raise e))
  ∨ (∃ d u, post = PDict d ∧ assoc "url" d = Some (PStr u)
            ∧ has_image_suffix u
            ∧ fetch_entry post s =
                (St (locals s ++ [mkPost (default PNone (assoc "id" d))
                                    (default (PStr "(no title)") (assoc "title" d))
                                    u])
                    (events s), Ret tt)).
Proof.
  destruct s as [l ev].
  destruct post as [| | | | |?|d];
    try (right; left; eexists; reflexivity).
  unfold fetch_entry, bind, py_get, ret; cbn -[existsb].
  destruct (assoc "url" d) as [v|] eqn:Hurl; cbn -[existsb]; [|by left].
  destruct (truthy v) eqn:Htr; cbn -[existsb]; [|by left].
  destruct v as [| | | |u| |];
    try (right; left; eexists; reflexivity).
  cbn -[existsb].
  destruct (existsb (endswith (lower u)) extensions) eqn:Hext; [|by left].
  right; right. exists d, u. apply existsb_endswith in Hext.
  by split_and!.
Qed.

Lemma fetch_entry_length post s :
  length (locals (fst (fetch_entry post s))) ≤ S (length (locals s)).
Proof.
  destruct (fetch_entry_cases post s)
    as [->|[[e ->]|(d & u & _ & _ & _ & ->)]]; simpl; try lia.
  rewrite length_app; simpl; lia.
Qed.

Lemma for_each_fetch_entry_length items s :
  length (locals (fst (for_each items fetch_entry s)))
  ≤ length (locals s) + length items.
Proof.
  revert s. induction items as [|post items IH]; intros s; simpl; [lia|].
  unfold bind. pose proof (fetch_entry_length post s) as Hl.
  destruct (fetch_entry post s) as [s1 [[]|e]]; simpl in *; [|lia].
  specialize (IH s1). lia.
Qed.

Lemma fetch_entry_image post s :
  Forall (λ p, has_image_suffix (post_url p)) (locals s) →
  Forall (λ p, has_image_suffix (post_url p)) (locals (fst (fetch_entry post s))).
Proof.
  intros Hs.
  destruct (fetch_entry_cases post s)
    as [->|[[e ->]|(d & u & _ & _ & Hu & ->)]]; simpl; try done.
  apply Forall_app; split; [done|]. by apply Forall_singleton.
Qed.

(** [fetch_subreddit] always returns, and returns its [posts]. *)
Lemma fetch_subreddit_returns http sub s :
  snd (fetch_subreddit http sub s)
  = Ret (locals (fst (fetch_subreddit http sub s))).
Proof.
  unfold fetch_subreddit, bind, try_except, modify, get; simpl.
  by destruct (fetch_try http (search_url sub) _) as [s1 [[]|e]].
Qed.

(** The run of [fetch_subreddit] from any state of the caller. *)
Lemma fetch_subreddit_run http sub s :
  fetch_subreddit http sub s
  = (St (fetched http sub) (events s ++ fetch_log http sub),
     Ret (fetched http sub)).
Proof.
  destruct s as [l ev]. rewrite (logs_only_fetch_subreddit http sub l ev).
  assert (fetch_subreddit http sub (St l []) = fetch_subreddit http sub (st0 []))
    as -> by reflexivity.
  by rewrite fetch_subreddit_returns.
Qed.

(** The posts returned, read off the three stages of the [try] block. *)
Lemma fetched_unfold http sub :
  fetched http sub = locals (fst (fetch_try http (search_url sub) (st0 []))).
Proof.
  unfold fetched, fetch_subreddit, bind, try_except, modify, get; simpl.
  by destruct (fetch_try http (search_url sub) _) as [s1 [[]|e]].
Qed.

Lemma fetched_items http sub :
  fetched http sub
  = locals (fst (for_each (items_of (http (search_url sub))) fetch_entry
                   (st0 []))).
Proof.
  rewrite fetched_unfold. unfold fetch_try, bind.
  destruct (http (search_url sub)) as [e|e|data]; simpl; try done.
  destruct data as [| | | | | |d]; simpl; try done.
  destruct (assoc "data" d) as [v|]; simpl; [|done].
  by destruct v.
Qed.

Lemma fetched_length http sub :
  length (fetched http sub) ≤ entry_count (http (search_url sub)).
Proof.
  rewrite fetched_items. unfold entry_count.
  apply (for_each_fetch_entry_length _ (st0 [])).
Qed.

Lemma fetched_image http sub :
  Forall (λ p, has_image_suffix (post_url p)) (fetched http sub).
Proof.
  rewrite fetched_items.
  apply (for_each_invariant (Forall (λ p, has_image_suffix (post_url p)))).
  - intros post s. apply fetch_entry_image.
  - constructor.
Qed.

(** A failure of the GET or of the decoding: nothing was appended yet. *)
Lemma fetched_failure http sub e :
  http (search_url sub) = GetRaises e ∨ http (search_url sub) = JsonRaises e →
  fetched http sub = []
  ∧ fetch_log http sub
    = [Logged WARNING ("Failed to fetch " +:+ sub +:+ ": " +:+ e)].
Proof.
  unfold fetched, fetch_log, fetch_subreddit, fetch_try, bind, try_except.
  by intros [H|H]; simpl; rewrite H.
Qed.

(* ===================================================================== *)
(** * The refresh pass *)
(* ===================================================================== *)

Lemma refresh_step_run http sub s :
  ∃ evs, refresh_step http sub s
         = (St (refreshed http sub (locals s)) (events s ++ evs), Ret tt).
Proof.
  destruct s as [cache ev].
  unfold refresh_step, refreshed, bind, scoped. rewrite fetch_subreddit_run.
  simpl. destruct (fetched http sub) as [|p ps]; simpl.
  - unfold logger_info, emit; simpl. rewrite <-app_assoc. by eexists.
  - unfold logger_info, emit, modify; simpl. rewrite <-app_assoc. by eexists.
Qed.

Lemma for_each_refresh_run http subs s :
  ∃ evs, for_each subs (refresh_step http) s
         = (St (foldl (λ c sub, refreshed http sub c) (locals s) subs)
              (events s ++ evs), Ret tt).
Proof.
  revert s. induction subs as [|sub subs IH]; intros s; simpl.
  - exists []. rewrite app_nil_r. by destruct s.
  - unfold bind. destruct (refresh_step_run http sub s) as [e1 ->].
    destruct (IH (St (refreshed http sub (locals s)) (events s ++ e1)))
      as [e2 ->]; simpl.
    exists (e1 ++ e2). by rewrite app_assoc.
Qed.

Lemma update_all_subreddits_run http s :
  ∃ evs, update_all_subreddits http s
         = (St (foldl (λ c sub, refreshed http sub c) (locals s) SUBREDDITS)
              (events s ++ evs), Ret tt).
Proof.
  unfold update_all_subreddits, bind.
  destruct (for_each_refresh_run http SUBREDDITS s) as [e1 ->].
  unfold logger_info, emit; simpl. rewrite <-app_assoc. by eexists.
Qed.

Lemma refreshed_lookup http sub (cache : gmap string (list Post)) T :
  refreshed http sub cache !! T
  = if decide (sub = T ∧ fetched http T ≠ [])
    then Some (fetched http T) else cache !! T.
Proof.
  unfold refreshed. case_decide as H.
  - destruct H as [-> H]. destruct (fetched http T); [done|].
    by rewrite lookup_insert_eq.
  - destruct (fetched http sub) eqn:E; [done|].
    rewrite lookup_insert_ne; [done|]. intros ->. apply H. by rewrite E.
Qed.

Lemma foldl_refreshed_lookup http subs (cache : gmap string (list Post)) T :
  foldl (λ c sub, refreshed http sub c) cache subs !! T
  = if decide (T ∈ subs ∧ fetched http T ≠ [])
    then Some (fetched http T) else cache !! T.
Proof.
  revert cache. induction subs as [|sub subs IH]; intros cache; cbn [foldl].
  - case_decide as H; [|done]. destruct H as [H _]. by apply elem_of_nil in H.
  - rewrite IH, refreshed_lookup.
    destruct (decide (T ∈ subs ∧ fetched http T ≠ [])) as [[Hin Hne]|Hn].
    { rewrite decide_True; [done|]. split; [by right|done]. }
    destruct (decide (sub = T ∧ fetched http T ≠ [])) as [[-> Hne]|Hn'].
    { rewrite decide_True; [done|]. split; [by left|done]. }
    rewrite decide_False; [done|].
    intros [[->|Hin]%elem_of_cons Hne]; [by apply Hn'|by apply Hn].
Qed.

Lemma cache_after_lookup http (cache : gmap string (list Post)) T :
  cache_after http cache !! T
  = if decide (T ∈ SUBREDDITS ∧ fetched http T ≠ [])
    then Some (fetched http T) else cache !! T.
Proof.
  unfold cache_after.
  destruct (update_all_subreddits_run http (st0 cache)) as [evs ->].
  apply foldl_refreshed_lookup.
Qed.

(** What [fetch_subreddit] returns depends on the answer to its own URL
    only. *)
Lemma fetched_ext http http' sub :
  http (search_url sub) = http' (search_url sub) →
  fetched http sub = fetched http' sub.
Proof. intros H. by rewrite !fetched_items, H. Qed.

(* ===================================================================== *)
(** * Properties of the feed client and of the refresh pass *)
(* ===================================================================== *)

(** C4, as stated, fails: the service answering with 51 image posts makes
    [fetch_subreddit] return 51 posts, more than [MAX_POSTS_PER_SUB]. *)
Lemma fetch_may_exceed_max :
  ∃ posts, snd (fetch_subreddit (http_many 51) "cats" (st0 [])) = Ret posts
           ∧ ¬ length posts ≤ MAX_POSTS_PER_SUB.
Proof.
  eexists. split; [vm_compute; reflexivity|].
  vm_compute. intros H. by apply Nat.leb_le in H.
Qed.

(** C4, amended.  The request asks for [MAX_POSTS_PER_SUB] = 50 entries; the
    list returned is no longer than the list of entries the response
    carries, hence no longer than 50 when the service returns no more
    entries than it was asked for. *)
Theorem fetch_length_bounded_by_response http sub s posts :
  snd (fetch_subreddit http sub s) = Ret posts →
  search_url sub
  = "https://api.pullpush.io/reddit/submission/search?subreddit=" +:+ sub
    +:+ "&size=50&sort=new&type=link&over_18=false"
  ∧ length posts ≤ entry_count (http (search_url sub))
  ∧ (entry_count (http (search_url sub)) ≤ MAX_POSTS_PER_SUB →
     length posts ≤ MAX_POSTS_PER_SUB).
Proof.
  rewrite fetch_subreddit_run. intros [= <-].
  pose proof (fetched_length http sub). split_and!; [done|done|lia].
Qed.

Lemma fetch_length_bounded_by_response_witness :
  length [cat_post; cat_post] ≤ MAX_POSTS_PER_SUB.
Proof.
  apply (fetch_length_bounded_by_response (http_many 2) "cats" (st0 [])
           [cat_post; cat_post]).
  - vm_compute. reflexivity.
  - vm_compute. lia.
Defined.

(** C5. When the fetch of [T] returns a non-empty list [P], the refresh
    step of [T] returns normally and leaves the cache as it was with the
    entry of [T] overwritten by [P]: the entry reads back as [P] whatever it
    held before.  For [T] in [SUBREDDITS] the same holds after the whole
    pass of [update_all_subreddits]. *)
Theorem refresh_replaces_entry http T s P :
  snd (fetch_subreddit http T (St [] (events s))) = Ret P →
  P ≠ [] →
  (∃ evs, refresh_step http T s
          = (St (<[T := P]> (locals s)) (events s ++ evs), Ret tt))
  ∧ cache_get (<[T := P]> (locals s)) (Some T) = P
  ∧ (T ∈ SUBREDDITS →
     cache_get (cache_after http (locals s)) (Some T) = P).
Proof.
  rewrite fetch_subreddit_run. intros [= <-] HP. split_and!.
  - destruct (refresh_step_run http T s) as [evs ->]. exists evs.
    unfold refreshed. by destruct (fetched http T).
  - simpl. by rewrite lookup_insert_eq.
  - intros HT. simpl. rewrite cache_after_lookup.
    by rewrite decide_True.
Qed.

Lemma refresh_replaces_entry_witness :
  cache_get (cache_after (http_many 2) cats_only) (Some "dogs")
  = [cat_post; cat_post].
Proof.
  apply (refresh_replaces_entry (http_many 2) "dogs" (st0 cats_only)
           [cat_post; cat_post]).
  - vm_compute. reflexivity.
  - discriminate.
  - vm_compute. do 3 right. left.
Defined.

(** C7. Every post [fetch_subreddit] returns has a "url" that is text
    ending, once lowered, in .jpg, .jpeg, .png or .gif.  An entry whose
    "url" is absent or null, or is text with no such ending, adds nothing
    to the list. *)
Theorem fetch_keeps_image_posts_only http sub s posts :
  snd (fetch_subreddit http sub s) = Ret posts →
  (∀ post, post ∈ posts →
     ∃ ext stem, ext ∈ [".jpg"; ".jpeg"; ".png"; ".gif"]
                 ∧ lower (post_url post) = stem +:+ ext)
  ∧ ∀ d acc,
      (assoc "url" d = None ∨ assoc "url" d = Some PNone
       ∨ ∃ u, assoc "url" d = Some (PStr u) ∧ ¬ has_image_suffix u) →
      fetch_entry (PDict d) acc = (acc, Ret tt).
Proof.
  rewrite fetch_subreddit_run. intros [= <-]. split.
  - intros post Hin. pose proof (fetched_image http sub) as Hall.
    rewrite Forall_forall in Hall. apply (Hall post Hin).
  - intros d acc Hd.
    destruct (fetch_entry_cases (PDict d) acc)
      as [->|[[e He]|(d' & u & [= <-] & Hu & Himg & _)]]; [done| |].
    + exfalso. revert He.
      unfold fetch_entry, bind, py_get, ret; cbn -[existsb].
      destruct Hd as [->|[->|(u & -> & _)]]; cbn -[existsb]; try done.
      destruct (String.eqb u ""); cbn -[existsb]; [done|].
      by destruct (existsb _ _).
    + exfalso. destruct Hd as [Hd|[Hd|(u' & Hd & Hn)]];
        rewrite Hd in Hu; naive_solver.
Qed.

Lemma fetch_keeps_image_posts_only_witness :
  ∃ ext stem, ext ∈ [".jpg"; ".jpeg"; ".png"; ".gif"]
              ∧ lower (post_url cat_post) = stem +:+ ext.
Proof.
  apply (proj1 (fetch_keeps_image_posts_only (http_many 2) "cats" (st0 [])
                  [cat_post; cat_post] ltac:(vm_compute; reflexivity))).
  left.
Defined.

(* ===================================================================== *)
(** * The handlers *)
(* ===================================================================== *)

Lemma pick_elem_of {A} r (seq : list A) x : pick r seq = Some x → x ∈ seq.
Proof. unfold pick. apply list_elem_of_lookup_2. Qed.

Lemma pick_is_Some {A} r (seq : list A) : seq ≠ [] → is_Some (pick r seq).
Proof.
  intros Hne. unfold pick. apply lookup_lt_is_Some_2.
  apply Nat.mod_upper_bound. by destruct seq.
Qed.

Lemma pick_below {A} i (seq : list A) : i < length seq → pick i seq = seq !! i.
Proof. intros Hi. unfold pick. by rewrite Nat.mod_small. Qed.

Lemma pick_SUBREDDITS r : ∃ sub, pick r SUBREDDITS = Some sub.
Proof. by apply (pick_is_Some r SUBREDDITS). Qed.

Section HandlerRuns.
Variable tg : platform.
Variable reddit_cache : gmap string (list Post).
Variable py_str : pyval → string.

Lemma send_random_post_empty update r1 r2 mid s sub :
  pick r1 SUBREDDITS = Some sub →
  cache_get reddit_cache (Some sub) = [] →
  send_random_post tg reddit_cache py_str update r1 r2 mid s
  = (St (locals s) (events s ++ [Called (ReplyText OOPS)]),
     answer_of (tg (events s) (ReplyText OOPS))).
Proof.
  intros Hsub Hposts. unfold send_random_post, bind, choice.
  rewrite Hsub. unfold ret. by rewrite Hposts.
Qed.

Lemma send_random_post_render update r1 r2 mid s sub post :
  pick r1 SUBREDDITS = Some sub →
  pick r2 (cache_get reddit_cache (Some sub)) = Some post →
  let r := render_request update mid (post_url post)
             (caption_of py_str post sub) in
  send_random_post tg reddit_cache py_str update r1 r2 mid s
  = (St (UserData (Some sub) (Some post)) (events s ++ [Called r]),
     answer_of (tg (events s) r)).
Proof.
  intros Hsub Hpost. unfold send_random_post, bind, choice.
  rewrite Hsub. unfold ret.
  destruct (cache_get reddit_cache (Some sub)) as [|p ps] eqn:Hposts.
  { by apply pick_elem_of, elem_of_nil in Hpost. }
  rewrite Hpost. unfold modify, await, render_request, caption_of.
  cbn [locals events last_sub last_post].
  by destruct mid as [mid|]; [destruct (mid =? 0)%Z|].
Qed.

(** Every run of [send_random_post] is one of the two above. *)
Lemma send_random_post_cases r1 r2 :
  ∃ sub, pick r1 SUBREDDITS = Some sub
    ∧ (cache_get reddit_cache (Some sub) = []
       ∨ ∃ post, pick r2 (cache_get reddit_cache (Some sub)) = Some post).
Proof.
  destruct (pick_SUBREDDITS r1) as [sub Hsub]. exists sub. split; [done|].
  destruct (cache_get reddit_cache (Some sub)) as [|p ps] eqn:E; [by left|].
  right. by apply (pick_is_Some r2 (p :: ps)).
Qed.

Lemma start_raises update r1 r2 s e :
  callback_query update = None →
  tg (events s) (ReplyText GREETING) = Some e →
  start tg reddit_cache py_str update r1 r2 s
  = (St (locals s) (events s ++ [Called (ReplyText GREETING)]), Raise e).
Proof. intros Hm H. unfold start, bind, await. by rewrite Hm, H. Qed.

Lemma start_greets update r1 r2 s :
  callback_query update = None →
  tg (events s) (ReplyText GREETING) = None →
  start tg reddit_cache py_str update r1 r2 s
  = send_random_post tg reddit_cache py_str update r1 r2 None
      (St (locals s) (events s ++ [Called (ReplyText GREETING)])).
Proof. intros Hm H. unfold start, bind, await. by rewrite Hm, H. Qed.

Lemma button_handler_answer_raises update q r1 r2 s e :
  callback_query update = Some q →
  tg (events s) QueryAnswer = Some e →
  button_handler tg reddit_cache py_str update r1 r2 s
  = (St (locals s) (events s ++ [Called QueryAnswer]), Raise e).
Proof. intros Hq H. unfold button_handler, bind, await. by rewrite Hq, H. Qed.

Lemma button_handler_no_posts update q r1 r2 s :
  callback_query update = Some q →
  tg (events s) QueryAnswer = None →
  cache_get reddit_cache (last_sub (locals s)) = [] →
  let r := QueryEditMessageCaption
             ("No cached posts for r/" +:+ format_sub (last_sub (locals s))
              +:+ ".") in
  button_handler tg reddit_cache py_str update r1 r2 s
  = (St (locals s) (events s ++ [Called QueryAnswer; Called r]),
     answer_of (tg (events s ++ [Called QueryAnswer]) r)).
Proof.
  intros Hq H Hposts. unfold button_handler, bind, await, get.
  rewrite Hq, H. cbn [locals events answer_of]. rewrite Hposts.
  cbn [locals events]. by rewrite <-app_assoc.
Qed.

Lemma button_handler_random update q r1 r2 s :
  callback_query update = Some q →
  tg (events s) QueryAnswer = None →
  cache_get reddit_cache (last_sub (locals s)) ≠ [] →
  data q = "random" →
  button_handler tg reddit_cache py_str update r1 r2 s
  = send_random_post tg reddit_cache py_str update r1 r2
      (Some (message_id q))
      (St (locals s) (events s ++ [Called QueryAnswer])).
Proof.
  intros Hq H Hposts Hact. unfold button_handler, bind, await, get.
  rewrite Hq, H, Hact. cbn [locals events answer_of].
  by destruct (cache_get reddit_cache (last_sub (locals s))).
Qed.

Lemma button_handler_draw update q r1 r2 s post :
  callback_query update = Some q →
  tg (events s) QueryAnswer = None →
  pick r1 (cache_get reddit_cache (last_sub (locals s))) = Some post →
  data q ≠ "random" →
  let r := QueryEditMessageMedia (post_url post)
             (py_str (post_title post) +:+ nl +:+ "/r/"
              +:+ format_sub (last_sub (locals s)))
             navigation_keyboard in
  button_handler tg reddit_cache py_str update r1 r2 s
  = (St (UserData (last_sub (locals s)) (Some post))
       (events s ++ Called QueryAnswer
                    :: guarded_edit tg (events s ++ [Called QueryAnswer]) r),
     Ret tt).
Proof.
  intros Hq H Hpost Hact. unfold button_handler, bind, await, get.
  rewrite Hq, H. cbn [locals events answer_of].
  destruct (cache_get reddit_cache (last_sub (locals s))) as [|p ps] eqn:E.
  { by apply pick_elem_of, elem_of_nil in Hpost. }
  apply String.eqb_neq in Hact. rewrite Hact.
  unfold choice. rewrite Hpost.
  unfold ret, modify, try_except, guarded_edit, logger_warning, emit.
  cbn [locals events last_sub last_post].
  by destruct (tg (events s ++ _) _); cbn [locals events answer_of];
    rewrite <-!app_assoc.
Qed.
End HandlerRuns.

Lemma rendering_render_request update mid photo caption :
  rendering (Called (render_request update mid photo caption))
  = Some (photo, caption).
Proof. unfold render_request. by destruct mid as [mid|]; [destruct (mid =? 0)%Z|]. Qed.

Lemma cache_get_nonempty (cache : gmap string (list Post)) o :
  cache_get cache o ≠ [] → ∃ sub, o = Some sub.
Proof. destruct o; [eauto|done]. Qed.

(** Reads the events a run added off an equation between traces. *)
Ltac new_events H :=
  cbn [fst snd locals events] in H; rewrite <-?app_assoc in H;
  apply app_inv_head in H; subst.

(** Goes through the members of an explicit list. *)
Ltac members H :=
  repeat (apply elem_of_cons in H as [->|H]); [..|by apply elem_of_nil in H].

(** What [send_random_post] adds to the trace, and what holds of a post it
    shows. *)
Lemma send_random_post_shows tg cache py_str update r1 r2 mid s :
  ∃ evs,
    events (fst (send_random_post tg cache py_str update r1 r2 mid s))
    = events s ++ evs
    ∧ ∀ ev photo caption,
        ev ∈ evs → rendering ev = Some (photo, caption) →
        ∃ sub post,
          post ∈ cache_get cache (Some sub)
          ∧ photo = post_url post
          ∧ caption = py_str (post_title post) +:+ nl +:+ "/r/" +:+ sub
          ∧ locals (fst (send_random_post tg cache py_str update r1 r2 mid s))
            = UserData (Some sub) (Some post).
Proof.
  destruct (send_random_post_cases cache r1 r2)
    as (sub & Hsub & [Hempty|[post Hpost]]).
  - rewrite (send_random_post_empty _ _ _ _ _ _ _ _ sub) by done.
    eexists. split; [reflexivity|]. intros ev photo caption Hin Hr.
    members Hin. discriminate Hr.
  - rewrite (send_random_post_render _ _ _ _ _ _ _ _ sub post) by done.
    eexists. split; [reflexivity|]. intros ev photo caption Hin Hr.
    members Hin. rewrite rendering_render_request in Hr.
    injection Hr as <- <-. exists sub, post.
    split_and!; try done. by eapply pick_elem_of.
Qed.

(* ===================================================================== *)
(** * Properties of the handlers *)
(* ===================================================================== *)

(** C1, as stated, fails: /start drawing "cats", whose only cached post is
    titled "A cat", sends a caption that is not "A cat", a newline, "/" and
    "cats". *)
Lemma caption_is_not_title_slash_topic :
  ∃ caption,
    pick 2 SUBREDDITS = Some "cats"
    ∧ events (fst (start quiet cats_only str_basic command 2 0
                     (st0 (UserData None None))))
      = [Called (ReplyText GREETING);
         Called (ReplyPhoto "http://x/a.jpg" caption navigation_keyboard)]
    ∧ caption ≠ "A cat" +:+ nl +:+ "/" +:+ "cats".
Proof.
  eexists. split_and!; [reflexivity|vm_compute; reflexivity|].
  vm_compute. discriminate.
Qed.

(** C1, amended.  Whenever [start] or [button_handler] shows a post (sends
    a photo or edits the media of the message), that post is one of the
    cache entry of some subreddit [sub], the photo is its "url", the
    caption is its title, a newline, "/r/" and [sub], and the handler
    leaves "last_sub" = [sub] and "last_post" = the post in
    [context.user_data]. *)
Theorem rendered_caption_and_session
    tg cache py_str h update r1 r2 s evs photo caption :
  events (fst (dispatch tg cache py_str h update r1 r2 s)) = events s ++ evs →
  (∃ ev, ev ∈ evs ∧ rendering ev = Some (photo, caption)) →
  ∃ sub post,
    post ∈ cache_get cache (Some sub)
    ∧ photo = post_url post
    ∧ caption = py_str (post_title post) +:+ nl +:+ "/r/" +:+ sub
    ∧ locals (fst (dispatch tg cache py_str h update r1 r2 s))
      = UserData (Some sub) (Some post).
Proof.
  intros Hev (ev & Hin & Hr). destruct h; cbn [dispatch] in *.
  - destruct (callback_query update) as [q|] eqn:Hq.
    { unfold start in Hev. rewrite Hq in Hev.
      unfold raise in Hev; cbn [fst] in Hev.
      rewrite <-(app_nil_r (events s)) in Hev at 1.
      apply app_inv_head in Hev as <-. by apply elem_of_nil in Hin. }
    destruct (tg (events s) (ReplyText GREETING)) as [e|] eqn:Hg.
    + rewrite start_raises with (e:=e) in Hev by done.
      new_events Hev. members Hin. discriminate Hr.
    + rewrite start_greets in * by done.
      destruct (send_random_post_shows tg cache py_str update r1 r2 None
                  (St (locals s) (events s ++ [Called (ReplyText GREETING)])))
        as (evs1 & H1 & Hshow).
      rewrite H1 in Hev. new_events Hev.
      apply elem_of_cons in Hin as [->|Hin]; [discriminate Hr|]. eauto.
  - destruct (callback_query update) as [q|] eqn:Hq.
    2:{ unfold button_handler in Hev. rewrite Hq in Hev.
        unfold raise in Hev; cbn [fst] in Hev.
        rewrite <-(app_nil_r (events s)) in Hev at 1.
        apply app_inv_head in Hev as <-. by apply elem_of_nil in Hin. }
    destruct (tg (events s) QueryAnswer) as [e|] eqn:Ha.
    { rewrite button_handler_answer_raises with (q:=q) (e:=e) in Hev by done.
      new_events Hev. members Hin. discriminate Hr. }
    destruct (cache_get cache (last_sub (locals s))) as [|p ps] eqn:Hposts.
    { rewrite button_handler_no_posts with (q:=q) in Hev by done.
      new_events Hev. members Hin; discriminate Hr. }
    destruct (decide (data q = "random")) as [Hact|Hact].
    + rewrite button_handler_random with (q:=q) in *
        by (done || by rewrite Hposts).
      destruct (send_random_post_shows tg cache py_str update r1 r2
                  (Some (message_id q))
                  (St (locals s) (events s ++ [Called QueryAnswer])))
        as (evs1 & H1 & Hshow).
      rewrite H1 in Hev. new_events Hev.
      apply elem_of_cons in Hin as [->|Hin]; [discriminate Hr|]. eauto.
    + destruct (pick_is_Some r1 (p :: ps)) as [post Hpost]; [done|].
      destruct (cache_get_nonempty cache (last_sub (locals s))) as [sub Hsub];
        [by rewrite Hposts|].
      rewrite button_handler_draw with (q:=q) (post:=post) in *
        by (done || by rewrite Hposts).
      new_events Hev. unfold guarded_edit in Hin.
      rewrite Hsub in *. cbn [format_sub] in *.
      exists sub, post. split.
      { rewrite Hposts. by eapply pick_elem_of. }
      destruct (tg _ (QueryEditMessageMedia _ _ _)); members Hin;
        try discriminate Hr; by injection Hr as <- <-.
Qed.

Lemma rendered_caption_and_session_witness :
  ∃ sub post,
    post ∈ cache_get cats_only (Some sub)
    ∧ "http://x/a.jpg" = post_url post
    ∧ "A cat" +:+ nl +:+ "/r/cats"
      = str_basic (post_title post) +:+ nl +:+ "/r/" +:+ sub
    ∧ locals (fst (dispatch quiet cats_only str_basic Start command 2 0
                     (st0 (UserData None None))))
      = UserData (Some sub) (Some post).
Proof.
  apply (rendered_caption_and_session quiet cats_only str_basic Start command
           2 0 (st0 (UserData None None))
           [Called (ReplyText GREETING);
            Called (ReplyPhoto "http://x/a.jpg" ("A cat" +:+ nl +:+ "/r/cats")
                      navigation_keyboard)]).
  - vm_compute. reflexivity.
  - eexists. split; [right; left|reflexivity].
Defined.

(** C8. When the command's greeting went out and the subreddit [start] draws has an
    empty cache entry, [start] sends the fixed failure text and stops:
    nothing else is requested and [context.user_data] is as it was. *)
Theorem start_empty_cache tg cache py_str update r1 r2 s sub :
  callback_query update = None →
  tg (events s) (ReplyText GREETING) = None →
  pick r1 SUBREDDITS = Some sub →
  cache_get cache (Some sub) = [] →
  start tg cache py_str update r1 r2 s
  = (St (locals s)
       (events s ++ [Called (ReplyText GREETING);
                     Called (ReplyText
                               "Oops, something went wrong lol, try again later.")]),
     answer_of (tg (events s ++ [Called (ReplyText GREETING)])
                  (ReplyText "Oops, something went wrong lol, try again later."))).
Proof.
  intros Hm Hg Hsub Hempty. rewrite start_greets by done.
  rewrite (send_random_post_empty _ _ _ _ _ _ _ _ sub) by done.
  cbn [locals events]. by rewrite <-app_assoc.
Qed.

Lemma start_empty_cache_witness :
  start quiet cats_only str_basic command 3 0 (st0 (UserData None None))
  = (St (UserData None None)
       [Called (ReplyText GREETING);
        Called (ReplyText "Oops, something went wrong lol, try again later.")],
     Ret tt).
Proof.
  apply (start_empty_cache quiet cats_only str_basic command 3 0
           (st0 (UserData None None)) "dogs").
  - reflexivity.
  - reflexivity.
  - reflexivity.
  - vm_compute. reflexivity.
Defined.

(** C9. "next" and "prev" run the same computation, whatever the platform,
    the cache, the session, the draws and the message.  Once the query is
    answered and the cache entry of "last_sub" is not empty, that
    computation takes the post the draw designates in this entry, stores it
    as "last_post", leaves "last_sub" alone and edits the media of the
    message, logging a failure of the edit; it stores neither a position
    nor a direction.  A draw below the length of the entry designates the
    post at that index, so that each post is designated by one draw in that
    range. *)
Theorem next_prev_identical tg cache py_str chat mid r1 r2 s :
  let run action :=
    button_handler tg cache py_str (mkUpdate chat (Some (mkQuery action mid)))
      r1 r2 s in
  run "next" = run "prev"
  ∧ (∀ post,
       tg (events s) QueryAnswer = None →
       pick r1 (cache_get cache (last_sub (locals s))) = Some post →
       let r := QueryEditMessageMedia (post_url post)
                  (py_str (post_title post) +:+ nl +:+ "/r/"
                   +:+ format_sub (last_sub (locals s)))
                  navigation_keyboard in
       run "next"
       = (St (UserData (last_sub (locals s)) (Some post))
            (events s ++ Called QueryAnswer
                         :: guarded_edit tg (events s ++ [Called QueryAnswer]) r),
          Ret tt))
  ∧ ∀ i, i < length (cache_get cache (last_sub (locals s))) →
         pick i (cache_get cache (last_sub (locals s)))
         = cache_get cache (last_sub (locals s)) !! i.
Proof.
  intros run. split_and!.
  - reflexivity.
  - intros post Ha Hpost r. unfold run.
    by rewrite button_handler_draw with (q:=mkQuery "next" mid) (post:=post).
  - intros i. apply pick_below.
Qed.

Lemma next_prev_identical_witness :
  button_handler quiet cats_only str_basic (press "next") 0 0
    (st0 (UserData (Some "cats") None))
  = (St (UserData (Some "cats") (Some cat_post))
       [Called QueryAnswer;
        Called (QueryEditMessageMedia "http://x/a.jpg"
                  ("A cat" +:+ nl +:+ "/r/cats") navigation_keyboard)],
     Ret tt).
Proof.
  apply (proj1 (proj2 (next_prev_identical quiet cats_only str_basic 5 9 0 0
                         (st0 (UserData (Some "cats") None)))) cat_post).
  - reflexivity.
  - vm_compute. reflexivity.
Defined.

(** An edit that fails under "next", "prev" or any action other than
    "random" is logged and swallowed: the handler returns, and sends no
    message. *)
Lemma button_edit_failure_swallowed tg cache py_str update q r1 r2 s post e :
  callback_query update = Some q →
  data q ≠ "random" →
  tg (events s) QueryAnswer = None →
  pick r1 (cache_get cache (last_sub (locals s))) = Some post →
  let r := QueryEditMessageMedia (post_url post)
             (py_str (post_title post) +:+ nl +:+ "/r/"
              +:+ format_sub (last_sub (locals s)))
             navigation_keyboard in
  tg (events s ++ [Called QueryAnswer]) r = Some e →
  button_handler tg cache py_str update r1 r2 s
  = (St (UserData (last_sub (locals s)) (Some post))
       (events s ++ [Called QueryAnswer; Called r;
                     Logged WARNING ("Failed to edit media: " +:+ e)]),
     Ret tt).
Proof.
  intros Hq Hact Ha Hpost r He.
  rewrite button_handler_draw with (q:=q) (post:=post) by done.
  unfold guarded_edit. fold r. by rewrite He.
Qed.

(** C2 fails under "random": the edit is awaited by [send_random_post]
    outside any [try], so an edit that raises makes [button_handler] raise,
    and no warning is logged. *)
Theorem random_edit_failure_propagates
    tg cache py_str update q r1 r2 s sub post e :
  callback_query update = Some q →
  data q = "random" →
  message_id q ≠ 0%Z →
  tg (events s) QueryAnswer = None →
  cache_get cache (last_sub (locals s)) ≠ [] →
  pick r1 SUBREDDITS = Some sub →
  pick r2 (cache_get cache (Some sub)) = Some post →
  let r := BotEditMessageMedia (effective_chat_id update) (message_id q)
             (post_url post)
             (py_str (post_title post) +:+ nl +:+ "/r/" +:+ sub)
             navigation_keyboard in
  tg (events s ++ [Called QueryAnswer]) r = Some e →
  button_handler tg cache py_str update r1 r2 s
  = (St (UserData (Some sub) (Some post))
       (events s ++ [Called QueryAnswer; Called r]),
     Raise e).
Proof.
  intros Hq Hact Hmid Ha Hposts Hsub Hpost r He.
  rewrite button_handler_random with (q:=q) by done.
  rewrite (send_random_post_render _ _ _ _ _ _ _ _ sub post) by done.
  unfold render_request, caption_of. cbn [locals events].
  apply Z.eqb_neq in Hmid. rewrite Hmid. fold r.
  by rewrite He, <-app_assoc.
Qed.

Lemma random_edit_failure_propagates_witness :
  button_handler edit_rejected cats_only str_basic (press "random") 2 0
    (st0 (UserData (Some "cats") (Some cat_post)))
  = (St (UserData (Some "cats") (Some cat_post))
       [Called QueryAnswer;
        Called (BotEditMessageMedia 5 9 "http://x/a.jpg"
                  ("A cat" +:+ nl +:+ "/r/cats") navigation_keyboard)],
     Raise "Message is not modified").
Proof.
  apply (random_edit_failure_propagates edit_rejected cats_only str_basic
           (press "random") (mkQuery "random" 9) 2 0
           (st0 (UserData (Some "cats") (Some cat_post))) "cats" cat_post
           "Message is not modified").
  - reflexivity.
  - reflexivity.
  - simpl. lia.
  - reflexivity.
  - vm_compute. discriminate.
  - reflexivity.
  - vm_compute. reflexivity.
  - reflexivity.
Defined.

(* ===================================================================== *)
(** * Further properties of the feed client *)
(* ===================================================================== *)

Lemma fetch_entry_run item s :
  fetch_entry item s
  = (St (locals s ++ option_list (entry_post item)) (events s),
     answer_of (entry_error item)).
Proof.
  destruct s as [l ev].
  destruct item as [| | | | |?|d];
    try (cbn; by rewrite app_nil_r).
  unfold fetch_entry, entry_post, entry_error, bind, py_get, ret;
    cbn -[existsb].
  destruct (assoc "url" d) as [v|] eqn:Hurl; cbn -[existsb];
    [|by rewrite app_nil_r].
  destruct v as [|b|n|x|u|l'|d']; cbn -[existsb];
    try (by rewrite app_nil_r).
  - destruct b; cbn; by rewrite app_nil_r.
  - destruct (n =? 0)%Z; cbn; by rewrite app_nil_r.
  - destruct (PrimFloat.eqb x PrimFloat.zero); cbn; by rewrite app_nil_r.
  - destruct u as [|c u]; [cbn; by rewrite app_nil_r|]. cbn -[existsb].
    destruct (existsb _ extensions); cbn -[existsb]; [|by rewrite app_nil_r].
    unfold modify; cbn. by destruct (assoc "id" d), (assoc "title" d).
  - destruct l'; cbn; by rewrite app_nil_r.
  - destruct d'; cbn; by rewrite app_nil_r.
Qed.

Lemma entry_error_no_post item e :
  entry_error item = Some e → entry_post item = None.
Proof.
  destruct item as [| | | | | |d]; try done.
  unfold entry_error, entry_post.
  by destruct (assoc "url" d) as [[]|].
Qed.

Lemma for_each_fetch_entry_run items s :
  for_each items fetch_entry s
  = (St (locals s ++ fst (walk items)) (events s), answer_of (snd (walk items))).
Proof.
  revert s. induction items as [|item items IH]; intros [l ev]; cbn [for_each walk].
  - unfold ret; cbn. by rewrite app_nil_r.
  - unfold bind. rewrite fetch_entry_run. cbn [locals events].
    destruct (entry_error item) as [e|] eqn:He; cbn [answer_of fst snd].
    + rewrite (entry_error_no_post item e He). cbn. by rewrite !app_nil_r.
    + rewrite IH. cbn [locals events]. by rewrite app_assoc.
Qed.

Lemma walk_readable items :
  Forall (λ item, entry_error item = None) items →
  walk items = (omap entry_post items, None).
Proof.
  induction 1 as [|item items Hitem _ IH]; [done|].
  cbn [walk]. rewrite Hitem, IH. cbn [fst snd omap list_omap].
  by destruct (entry_post item).
Qed.

Lemma walk_unreadable good bad rest e :
  Forall (λ item, entry_error item = None) good →
  entry_error bad = Some e →
  walk (good ++ bad :: rest) = (omap entry_post good, Some e).
Proof.
  intros Hgood Hbad. induction Hgood as [|item items Hitem _ IH].
  - cbn [app walk]. by rewrite Hbad.
  - cbn [app walk]. rewrite Hitem, IH. cbn [fst snd omap list_omap].
    by destruct (entry_post item).
Qed.

(** [fetch_subreddit], given the run of its [try] block. *)
Lemma fetch_subreddit_of_try http sub s posts r :
  fetch_try http (search_url sub) (St [] (events s))
  = (St posts (events s), r) →
  fetch_subreddit http sub s
  = (St posts
       (events s ++ match r with
                    | Ret _ => []
                    | Raise e => [fetch_warning sub e]
                    end),
     Ret posts).
Proof.
  intros H. unfold fetch_subreddit, bind, try_except, modify; cbn [locals events].
  rewrite H. destruct r as [[]|e]; cbn.
  - by rewrite app_nil_r.
  - done.
Qed.

Lemma fetch_try_list http url d entries s :
  http url = Decoded (PDict d) →
  default (PList []) (assoc "data" d) = PList entries →
  fetch_try http url s = for_each entries fetch_entry s.
Proof.
  intros Hx Hd. unfold fetch_try, bind. rewrite Hx.
  unfold resp_json, ret, py_get.
  destruct (assoc "data" d) as [v|]; cbn in Hd; simplify_eq; reflexivity.
Qed.

(** X1. A body that is an object whose "data" is a list (or is absent)
    of entries the loop can read yields, in order, the posts of the entries
    whose "url" is text with an image suffix; a missing "id" reads [None],
    a missing "title" reads "(no title)"; nothing is logged. *)
Theorem fetch_readable_response http sub d entries s :
  http (search_url sub) = Decoded (PDict d) →
  default (PList []) (assoc "data" d) = PList entries →
  Forall (λ item, entry_error item = None) entries →
  fetch_subreddit http sub s
  = (St (omap entry_post entries) (events s), Ret (omap entry_post entries)).
Proof.
  intros Hx Hd Hall.
  rewrite (fetch_subreddit_of_try http sub s (omap entry_post entries) (Ret tt)).
  - by rewrite app_nil_r.
  - rewrite (fetch_try_list http _ d entries) by done.
    rewrite for_each_fetch_entry_run, walk_readable by done. done.
Qed.

Lemma fetch_readable_response_witness :
  fetch_subreddit http_cats "cats" (st0 [])
  = (St [cat_post; bare_post] [], Ret [cat_post; bare_post]).
Proof.
  apply (fetch_readable_response http_cats "cats"
           [("data", PList [cat_entry; video_entry; bare_entry])]
           [cat_entry; video_entry; bare_entry] (st0 [])).
  - vm_compute. reflexivity.
  - reflexivity.
  - repeat constructor.
Defined.

(** X2. When the entries start with readable ones and then comes one the
    loop cannot read, [fetch_subreddit] returns the posts of the readable
    ones before it, ignores every entry after it, and logs one warning
    carrying the exception. *)
Theorem fetch_stops_at_first_unreadable http sub d good bad rest e s :
  http (search_url sub) = Decoded (PDict d) →
  default (PList []) (assoc "data" d) = PList (good ++ bad :: rest) →
  Forall (λ item, entry_error item = None) good →
  entry_error bad = Some e →
  fetch_subreddit http sub s
  = (St (omap entry_post good)
       (events s ++ [Logged WARNING ("Failed to fetch " +:+ sub +:+ ": " +:+ e)]),
     Ret (omap entry_post good)).
Proof.
  intros Hx Hd Hgood Hbad.
  rewrite (fetch_subreddit_of_try http sub s (omap entry_post good) (Raise e));
    [done|].
  rewrite (fetch_try_list http _ d (good ++ bad :: rest)) by done.
  rewrite for_each_fetch_entry_run.
  by rewrite (walk_unreadable good bad rest e).
Qed.

Lemma fetch_stops_at_first_unreadable_witness :
  fetch_subreddit http_garbled "cats" (st0 [])
  = (St [cat_post]
       [Logged WARNING
          ("Failed to fetch " +:+ "cats" +:+ ": "
           +:+ "'int' object has no attribute 'get'")],
     Ret [cat_post]).
Proof.
  apply (fetch_stops_at_first_unreadable http_garbled "cats"
           [("data", PList [cat_entry; PInt 7; cat_entry])]
           [cat_entry] (PInt 7) [cat_entry]
           "'int' object has no attribute 'get'" (st0 [])).
  - reflexivity.
  - reflexivity.
  - repeat constructor.
  - reflexivity.
Defined.

(** X3. A decoded body that is not an object makes [fetch_subreddit]
    return the empty list and log the [AttributeError] of [data.get]; an
    object whose "data" is null, a boolean or a number makes it return the
    empty list and log that the value is not iterable. *)
Theorem fetch_unusable_body http sub data s :
  http (search_url sub) = Decoded data →
  ((∀ d, data ≠ PDict d) →
   fetch_subreddit http sub s
   = (St [] (events s
             ++ [Logged WARNING ("Failed to fetch " +:+ sub +:+ ": "
                                 +:+ attribute_error data "get")]),
      Ret []))
  ∧ ∀ d v,
      data = PDict d →
      assoc "data" d = Some v →
      (∀ l, v ≠ PList l) → (∀ t, v ≠ PStr t) → (∀ d', v ≠ PDict d') →
      fetch_subreddit http sub s
      = (St [] (events s
                ++ [Logged WARNING ("Failed to fetch " +:+ sub +:+ ": "
                                    +:+ not_iterable v)]),
         Ret []).
Proof.
  intros Hx. split.
  - intros Hd.
    rewrite (fetch_subreddit_of_try http sub s []
               (Raise (attribute_error data "get"))); [done|].
    unfold fetch_try, bind. rewrite Hx.
    destruct data; cbn; try done. by destruct (Hd d).
  - intros d v -> Hv Hl Ht Hd.
    rewrite (fetch_subreddit_of_try http sub s [] (Raise (not_iterable v)));
      [done|].
    unfold fetch_try, bind. rewrite Hx. cbn. rewrite Hv.
    destruct v as [| | | |t|l|d']; cbn; try done.
    + by destruct (Ht t).
    + by destruct (Hl l).
    + by destruct (Hd d').
Qed.

Lemma fetch_unusable_body_witness :
  fetch_subreddit http_list "cats" (st0 [])
  = (St [] [Logged WARNING
              ("Failed to fetch " +:+ "cats" +:+ ": "
               +:+ attribute_error (PList [cat_entry]) "get")],
     Ret []).
Proof.
  apply (proj1 (fetch_unusable_body http_list "cats" (PList [cat_entry])
                  (st0 []) ltac:(reflexivity))).
  intros d. discriminate.
Defined.

(** X4. The URLs queried for two different subreddits differ. *)
Theorem distinct_subreddits_distinct_urls (a b : string) :
  a ≠ b → search_url a ≠ search_url b.
Proof. intros Hab Heq. by apply Hab, search_url_inj. Qed.

Lemma distinct_subreddits_distinct_urls_witness :
  search_url "cats" ≠ search_url "dogs".
Proof.
  apply (distinct_subreddits_distinct_urls "cats" "dogs"). discriminate.
Defined.

(* ===================================================================== *)
(** * Further properties of the refresh pass and of the refresh loop *)
(* ===================================================================== *)

Lemma fetch_try_events http url s :
  events (fst (fetch_try http url s)) = events s.
Proof.
  unfold fetch_try, bind.
  destruct (http url) as [e|e|data]; cbn; try done.
  destruct data as [| | | | | |d]; cbn; try done.
  destruct (match assoc "data" d with Some x => x | None => PList [] end);
    cbn; try done; by rewrite for_each_fetch_entry_run.
Qed.

(** [fetch_subreddit] logs nothing, or one warning. *)
Lemma fetch_log_cases http sub :
  fetch_log http sub = [] ∨ ∃ e, fetch_log http sub = [fetch_warning sub e].
Proof.
  unfold fetch_log.
  pose proof (fetch_try_events http (search_url sub) (st0 [])) as Hev.
  destruct (fetch_try http (search_url sub) (st0 [])) as [[posts evs] r] eqn:Ht.
  cbn in Hev. subst evs.
  rewrite (fetch_subreddit_of_try http sub (st0 []) posts r Ht).
  destruct r as [[]|e]; cbn; eauto.
Qed.

Lemma refresh_step_log http sub s :
  ∃ evs, refresh_step http sub s
         = (St (refreshed http sub (locals s)) (events s ++ evs), Ret tt)
         ∧ Forall (λ ev, is_log ev = true) evs.
Proof.
  destruct s as [cache ev].
  unfold refresh_step, refreshed, bind, scoped. rewrite fetch_subreddit_run.
  cbn [locals events fst snd].
  assert (Forall (λ ev, is_log ev = true) (fetch_log http sub)) as Hlog.
  { destruct (fetch_log_cases http sub) as [->|[e ->]]; repeat constructor. }
  destruct (fetched http sub) as [|p ps]; unfold logger_info, emit, modify;
    cbn [locals events]; rewrite <-app_assoc; eexists; (split; [reflexivity|]);
    apply Forall_app; split; try done; repeat constructor.
Qed.

Lemma for_each_refresh_log http subs s :
  ∃ evs, for_each subs (refresh_step http) s
         = (St (foldl (λ c sub, refreshed http sub c) (locals s) subs)
              (events s ++ evs), Ret tt)
         ∧ Forall (λ ev, is_log ev = true) evs.
Proof.
  revert s. induction subs as [|sub subs IH]; intros s; cbn [for_each foldl].
  - exists []. rewrite app_nil_r. by destruct s.
  - unfold bind. destruct (refresh_step_log http sub s) as (e1 & -> & H1).
    destruct (IH (St (refreshed http sub (locals s)) (events s ++ e1)))
      as (e2 & -> & H2); cbn [locals events].
    exists (e1 ++ e2). rewrite app_assoc. split; [done|].
    by apply Forall_app.
Qed.

Lemma update_all_subreddits_log http s :
  ∃ evs, update_all_subreddits http s
         = (St (foldl (λ c sub, refreshed http sub c) (locals s) SUBREDDITS)
              (events s ++ evs), Ret tt)
         ∧ Forall (λ ev, is_log ev = true) evs.
Proof.
  unfold update_all_subreddits, bind.
  destruct (for_each_refresh_log http SUBREDDITS s) as (e1 & -> & H1).
  unfold logger_info, emit; cbn [locals events]. rewrite <-app_assoc.
  eexists. split; [reflexivity|]. apply Forall_app. split; [done|].
  repeat constructor.
Qed.

(** The cache a pass leaves does not depend on the trace it starts from. *)
Lemma update_all_subreddits_locals http s :
  locals (fst (update_all_subreddits http s)) = cache_after http (locals s).
Proof.
  unfold cache_after.
  destruct (update_all_subreddits_run http s) as [e1 ->].
  by destruct (update_all_subreddits_run http (st0 (locals s))) as [e2 ->].
Qed.

(** X5. Whenever [fetch_subreddit] returns the empty list, be it after
    an exception or because no entry had an image URL, the refresh step of
    the subreddit leaves the whole cache as it was (the posts of an earlier
    pass stay) and logs "No posts found". *)
Theorem refresh_keeps_entry_on_empty_result http T
    (cache : gmap string (list Post)) evs :
  snd (fetch_subreddit http T (St [] evs)) = Ret [] →
  ∃ log, refresh_step http T (St cache evs)
         = (St cache
              (evs ++ log ++ [Logged INFO ("No posts found for r/" +:+ T)]),
            Ret tt).
Proof.
  rewrite fetch_subreddit_run. intros [= Hf].
  unfold refresh_step, bind, scoped. rewrite fetch_subreddit_run, Hf.
  unfold logger_info, emit; cbn [locals events].
  exists (fetch_log http T). by rewrite <-app_assoc.
Qed.

Lemma refresh_keeps_entry_on_empty_result_witness :
  ∃ log, refresh_step http_cats "dogs" (St cats_only [])
         = (St cats_only
              ([] ++ log ++ [Logged INFO ("No posts found for r/" +:+ "dogs")]),
            Ret tt).
Proof.
  apply (refresh_keeps_entry_on_empty_result http_cats "dogs" cats_only []).
  vm_compute. reflexivity.
Defined.

(** X6. Two passes in a row: the entry of a configured subreddit is the
    result of the second fetch when that is not empty, else the result of
    the first when that is not empty, else what it was.  A second pass that
    gets the same answers as the first changes nothing. *)
Theorem update_all_subreddits_twice http1 http2
    (cache : gmap string (list Post)) T :
  (T ∈ SUBREDDITS →
   cache_get (cache_after http2 (cache_after http1 cache)) (Some T)
   = match fetched http2 T, fetched http1 T with
     | [], [] => cache_get cache (Some T)
     | [], posts => posts
     | posts, _ => posts
     end)
  ∧ cache_after http1 (cache_after http1 cache) = cache_after http1 cache.
Proof.
  split.
  - intros HT. cbn [cache_get]. rewrite !cache_after_lookup.
    destruct (fetched http2 T) as [|p2 ps2] eqn:E2.
    + rewrite decide_False by (by intros [_ ?]).
      destruct (fetched http1 T) as [|p1 ps1] eqn:E1.
      * by rewrite decide_False by (by intros [_ ?]).
      * by rewrite decide_True.
    + by rewrite decide_True.
  - apply map_eq. intros k. rewrite !cache_after_lookup.
    by case_decide.
Qed.

Lemma update_all_subreddits_twice_witness :
  cache_get (cache_after http_down (cache_after http_cats reddit_cache_init))
    (Some "cats")
  = [cat_post; bare_post].
Proof.
  refine (eq_trans
            (proj1 (update_all_subreddits_twice http_cats http_down
                      reddit_cache_init "cats") _) _).
  - vm_compute. do 2 right. left.
  - vm_compute. reflexivity.
Defined.

Lemma reddit_cache_init_lookup sub :
  reddit_cache_init !! sub = if decide (sub ∈ SUBREDDITS) then Some [] else None.
Proof.
  unfold reddit_cache_init. case_decide as Hin.
  - apply elem_of_list_to_map_1'.
    + intros y Hy. apply list_elem_of_fmap in Hy as (x & [= _ ->] & _). done.
    + apply list_elem_of_fmap. by exists sub.
  - apply not_elem_of_list_to_map_1. rewrite <-list_fmap_compose.
    intros Hsub. apply Hin.
    apply list_elem_of_fmap in Hsub as (x & -> & Hx). done.
Qed.

Lemma cache_ok_init : cache_ok reddit_cache_init.
Proof.
  intros sub. cbn [cache_get]. rewrite reddit_cache_init_lookup.
  case_decide; cbn; split; try constructor; done.
Qed.

Lemma cache_ok_refreshed http sub cache :
  sub ∈ SUBREDDITS → cache_ok cache → cache_ok (refreshed http sub cache).
Proof.
  intros Hsub Hok T. destruct (Hok T) as [Hdom Himg].
  cbn [cache_get] in *. rewrite refreshed_lookup. case_decide as Hc.
  - destruct Hc as [-> _]. split; [by split|]. cbn. apply fetched_image.
  - done.
Qed.

Lemma cache_ok_foldl http subs cache :
  subs ⊆ SUBREDDITS → cache_ok cache →
  cache_ok (foldl (λ c sub, refreshed http sub c) cache subs).
Proof.
  revert cache. induction subs as [|sub subs IH]; intros cache Hsubs Hok;
    cbn [foldl]; [done|].
  apply IH.
  - intros x Hx. apply Hsubs. by right.
  - apply cache_ok_refreshed; [|done]. apply Hsubs. by left.
Qed.

(** X7. In every state [reddit_cache] can reach, its keys are the
    subreddits of [SUBREDDITS] and every cached post has a "url" ending,
    once lowered, in .jpg, .jpeg, .png or .gif. *)
Theorem reachable_cache_ok cache : reachable cache → cache_ok cache.
Proof.
  induction 1 as [|http sub cache evs _ IH Hsub]; [apply cache_ok_init|].
  destruct (refresh_step_run http sub (St cache evs)) as [e1 ->].
  by apply cache_ok_refreshed.
Qed.

Lemma reachable_cache_ok_witness :
  cache_ok (locals (fst (refresh_step http_cats "cats"
                           (St reddit_cache_init [])))).
Proof.
  apply reachable_cache_ok. apply reachable_step; [apply reachable_init|].
  do 2 right. left.
Defined.

Lemma refreshed_populated http sub (cache : gmap string (list Post)) T :
  cache_get cache (Some T) ≠ [] → cache_get (refreshed http sub cache) (Some T) ≠ [].
Proof.
  cbn [cache_get]. rewrite refreshed_lookup. case_decide as Hc; [|done].
  intros _. cbn. by destruct Hc.
Qed.

Lemma foldl_refreshed_populated http subs (cache : gmap string (list Post)) T :
  cache_get cache (Some T) ≠ [] →
  cache_get (foldl (λ c sub, refreshed http sub c) cache subs) (Some T) ≠ [].
Proof.
  revert cache. induction subs as [|sub subs IH]; intros cache H; cbn [foldl];
    [done|].
  by apply IH, refreshed_populated.
Qed.

Lemma periodic_reddit_update_run n https s :
  ∃ cache' evs,
    periodic_reddit_update n https s = (St cache' (events s ++ evs), Ret tt)
    ∧ Forall (λ ev, is_log ev = true) evs
    ∧ (cache_ok (locals s) → cache_ok cache')
    ∧ ∀ T, cache_get (locals s) (Some T) ≠ [] → cache_get cache' (Some T) ≠ [].
Proof.
  revert https s. induction n as [|n IH]; intros https s;
    cbn [periodic_reddit_update].
  - exists (locals s), []. rewrite app_nil_r. destruct s.
    split_and!; [done|constructor|done|done].
  - unfold bind, asyncio_sleep, ret.
    destruct (update_all_subreddits_log (https 0) s) as (e1 & -> & H1).
    set (c1 := foldl (λ c sub, refreshed (https 0) sub c) (locals s) SUBREDDITS).
    destruct (IH (λ k, https (S k)) (St c1 (events s ++ e1)))
      as (cache' & e2 & -> & H2 & Hok & Hpop); cbn [locals events] in *.
    exists cache', (e1 ++ e2). rewrite app_assoc. split_and!.
    + done.
    + by apply Forall_app.
    + intros H. by apply Hok, cache_ok_foldl.
    + intros T H. by apply Hpop, foldl_refreshed_populated.
Qed.

(** X8. Any number of turns of the loop of [periodic_reddit_update]
    complete without an exception, whatever the search service answers, so
    that the next turn starts; the turns make no Telegram request: they
    only log. *)
Theorem periodic_rounds_return n https s :
  snd (periodic_reddit_update n https s) = Ret tt
  ∧ ∃ evs, events (fst (periodic_reddit_update n https s)) = events s ++ evs
           ∧ Forall (λ ev, is_request ev = false) evs.
Proof.
  destruct (periodic_reddit_update_run n https s)
    as (cache' & evs & -> & Hlog & _). split; [done|].
  exists evs. split; [done|].
  eapply Forall_impl; [exact Hlog|]. intros ev Hev. unfold is_request.
  by rewrite Hev.
Qed.

(** X9. Turns of the loop keep the cache well formed (keys of
    [SUBREDDITS], image posts only), and never empty an entry that holds
    posts. *)
Theorem periodic_rounds_keep_cache n https s :
  cache_ok (locals s) →
  cache_ok (locals (fst (periodic_reddit_update n https s)))
  ∧ ∀ T, cache_get (locals s) (Some T) ≠ [] →
         cache_get (locals (fst (periodic_reddit_update n https s))) (Some T)
         ≠ [].
Proof.
  intros Hok.
  destruct (periodic_reddit_update_run n https s)
    as (cache' & evs & -> & _ & Hok' & Hpop). split; [by apply Hok'|done].
Qed.

Lemma periodic_rounds_keep_cache_witness :
  cache_ok (locals (fst (periodic_reddit_update 2
                           (λ k, if (k =? 0)%nat then http_cats else http_down)
                           (st0 reddit_cache_init)))).
Proof.
  apply (periodic_rounds_keep_cache 2
           (λ k, if (k =? 0)%nat then http_cats else http_down)
           (st0 reddit_cache_init)).
  apply cache_ok_init.
Defined.

(* ===================================================================== *)
(** * Further properties of the handlers *)
(* ===================================================================== *)

Lemma added_app {L A} (m : M L A) (s : st L) evs :
  events (fst (m s)) = events s ++ evs → added m s = evs.
Proof. intros H. unfold added. by rewrite H, drop_app_length. Qed.

Lemma first_greeting : ReplyText GREETING ∈ [ReplyText GREETING; QueryAnswer].
Proof. by left. Qed.

Lemma first_answer : QueryAnswer ∈ [ReplyText GREETING; QueryAnswer].
Proof. right. by left. Qed.

Lemma send_random_post_shape tg cache py_str update r1 r2 mid s first :
  first ∈ [ReplyText GREETING; QueryAnswer] →
  let s1 := St (locals s) (events s ++ [Called first]) in
  ∃ evs,
    events (fst (send_random_post tg cache py_str update r1 r2 mid s1))
    = events s ++ evs
    ∧ shape tg cache py_str update s
        (locals (fst (send_random_post tg cache py_str update r1 r2 mid s1)))
        evs.
Proof.
  intros Hfirst s1.
  destruct (send_random_post_cases cache r1 r2)
    as (sub & Hsub & [Hempty|[post Hpost]]).
  - rewrite (send_random_post_empty _ _ _ _ _ _ _ _ sub) by done.
    cbn [fst locals events s1]. rewrite <-app_assoc.
    eexists. split; [reflexivity|]. by apply shape_oops.
  - rewrite (send_random_post_render _ _ _ _ _ _ _ _ sub post) by done.
    cbn [fst locals events s1]. rewrite <-app_assoc.
    eexists. split; [reflexivity|].
    apply shape_shown; [done| |]; by eapply pick_elem_of.
Qed.

(** Every call of a handler has one of the shapes. *)
Lemma dispatch_shape tg cache py_str h update r1 r2 s :
  ∃ evs,
    events (fst (dispatch tg cache py_str h update r1 r2 s)) = events s ++ evs
    ∧ shape tg cache py_str update s
        (locals (fst (dispatch tg cache py_str h update r1 r2 s))) evs.
Proof.
  destruct h; cbn [dispatch].
  - destruct (callback_query update) as [q|] eqn:Hq.
    { unfold start. rewrite Hq. exists []. rewrite app_nil_r.
      split; [done|]. apply shape_raised. }
    destruct (tg (events s) (ReplyText GREETING)) as [e|] eqn:Hg.
    + rewrite start_raises with (e:=e) by done.
      cbn [fst locals events]. eexists. split; [reflexivity|]. apply shape_first, first_greeting.
    + rewrite start_greets by done.
      apply send_random_post_shape, first_greeting.
  - destruct (callback_query update) as [q|] eqn:Hq.
    2:{ unfold button_handler. rewrite Hq. exists []. rewrite app_nil_r.
        split; [done|]. apply shape_raised. }
    destruct (tg (events s) QueryAnswer) as [e|] eqn:Ha.
    { rewrite button_handler_answer_raises with (q:=q) (e:=e) by done.
      cbn [fst locals events]. eexists. split; [reflexivity|]. apply shape_first, first_answer. }
    destruct (cache_get cache (last_sub (locals s))) as [|p ps] eqn:Hposts.
    { rewrite button_handler_no_posts with (q:=q) by done.
      cbn [fst locals events]. eexists. split; [reflexivity|]. by apply shape_notice. }
    destruct (decide (data q = "random")) as [Hact|Hact].
    + rewrite button_handler_random with (q:=q)
        by (done || by rewrite Hposts).
      apply send_random_post_shape, first_answer.
    + destruct (pick_is_Some r1 (p :: ps)) as [post Hpost]; [done|].
      destruct (cache_get_nonempty cache (last_sub (locals s))) as [sub Hsub];
        [by rewrite Hposts|].
      rewrite button_handler_draw with (q:=q) (post:=post)
        by (done || by rewrite Hposts).
      cbn [fst locals events]. eexists. split; [reflexivity|].
      rewrite Hsub. cbn [format_sub].
      apply (shape_drawn tg cache py_str update s sub post); [done|].
      rewrite <-Hsub, Hposts. by eapply pick_elem_of.
Qed.

Lemma in_first first :
  first ∈ [ReplyText GREETING; QueryAnswer] →
  first = ReplyText GREETING ∨ first = QueryAnswer.
Proof. intros H. members H; auto. Qed.

(** X10. One call of [start] or of [button_handler] makes at most two
    Telegram requests and shows at most one post, and every request that
    shows a post attaches the keyboard of [navigation_keyboard]. *)
Theorem one_post_per_update tg cache py_str h update r1 r2 s :
  let evs := added (dispatch tg cache py_str h update r1 r2) s in
  length (List.filter is_request evs) ≤ 2
  ∧ length (List.filter shows_post evs) ≤ 1
  ∧ ∀ ev kb, ev ∈ evs → reply_markup_of ev = Some kb →
             kb = [ [ ("⬅️ Prev", "prev"); ("🔁 Random", "random");
                      ("➡️ Next", "next") ] ].
Proof.
  destruct (dispatch_shape tg cache py_str h update r1 r2 s)
    as (evs & Hev & Hshape).
  rewrite (added_app _ _ _ Hev). cbn zeta. clear Hev.
  destruct Hshape as [|first Hf|first Hf| |first mid sub post Hf _ _|sub post _ _].
  - split_and!; cbn; try lia. intros ev kb Hin. by apply elem_of_nil in Hin.
  - apply in_first in Hf as [-> | ->]; split_and!; cbn; try lia;
      intros ev kb Hin; members Hin; discriminate.
  - apply in_first in Hf as [-> | ->]; split_and!; cbn; try lia;
      intros ev kb Hin; members Hin; discriminate.
  - split_and!; cbn; try lia. intros ev kb Hin; members Hin; discriminate.
  - assert (shows_post (Called (render_request update mid (post_url post)
                                  (caption_of py_str post sub))) = true
            ∧ is_request (Called (render_request update mid (post_url post)
                                    (caption_of py_str post sub))) = true
            ∧ reply_markup_of (Called (render_request update mid (post_url post)
                                         (caption_of py_str post sub)))
              = Some navigation_keyboard) as (H1 & H2 & H3).
    { unfold render_request.
      by destruct mid as [mid|]; [destruct (mid =? 0)%Z|]. }
    apply in_first in Hf as [-> | ->]; split_and!; cbn [List.filter];
      rewrite ?H1, ?H2; cbn; try lia;
      intros ev kb Hin; members Hin; try discriminate;
      rewrite H3; by intros [= <-].
  - unfold guarded_edit. destruct (tg _ _); split_and!; cbn; try lia;
      intros ev kb Hin; members Hin; try discriminate; by intros [= <-].
Qed.

(** X11. A handler leaves [user_data] well formed: after the call it is
    as before, or it holds a subreddit of [SUBREDDITS] and a post of that
    subreddit's cache entry. *)
Theorem handlers_keep_session tg cache py_str h update r1 r2 s :
  session_wf (locals s) →
  let ud := locals (fst (dispatch tg cache py_str h update r1 r2 s)) in
  session_wf ud
  ∧ (ud = locals s
     ∨ ∃ sub post, ud = UserData (Some sub) (Some post)
                   ∧ sub ∈ SUBREDDITS
                   ∧ post ∈ cache_get cache (Some sub)).
Proof.
  intros Hwf.
  destruct (dispatch_shape tg cache py_str h update r1 r2 s)
    as (evs & _ & Hshape). cbn zeta.
  destruct Hshape as [| | | |first mid sub post _ Hsub Hpost|sub post Hsub Hpost];
    try (split; [done|by left]).
  - split; [done|]. right. by exists sub, post.
  - assert (sub ∈ SUBREDDITS) as Hin.
    { unfold session_wf in Hwf. rewrite Hsub in Hwf.
      by destruct (last_post (locals s)). }
    split; [done|]. right. by exists sub, post.
Qed.

Lemma handlers_keep_session_witness :
  session_wf (locals (fst (dispatch quiet cats_only str_basic Start command 2 0
                             (st0 (UserData None None))))).
Proof.
  apply (handlers_keep_session quiet cats_only str_basic Start command 2 0
           (st0 (UserData None None))).
  exact I.
Defined.

(** X12. Under an action other than "random", [button_handler] sends no
    new message; and once the query is answered and the entry of "last_sub"
    is not empty, it returns normally whether or not the edit raises. *)
Theorem navigation_never_sends tg cache py_str update q r1 r2 s :
  callback_query update = Some q →
  data q ≠ "random" →
  (∀ ev, ev ∈ added (button_handler tg cache py_str update r1 r2) s →
         sends_message ev = false)
  ∧ (tg (events s) QueryAnswer = None →
     cache_get cache (last_sub (locals s)) ≠ [] →
     snd (button_handler tg cache py_str update r1 r2 s) = Ret tt).
Proof.
  intros Hq Hact.
  destruct (tg (events s) QueryAnswer) as [e|] eqn:Ha.
  { rewrite (added_app _ _ [Called QueryAnswer])
      by (by rewrite button_handler_answer_raises with (q:=q) (e:=e)).
    split; [|done]. intros ev Hin. by members Hin. }
  destruct (cache_get cache (last_sub (locals s))) as [|p ps] eqn:Hposts.
  { erewrite added_app
      by (by rewrite button_handler_no_posts with (q:=q)).
    split; [|done]. intros ev Hin. by members Hin. }
  destruct (pick_is_Some r1 (p :: ps)) as [post Hpost]; [done|].
  rewrite <-Hposts in Hpost.
  erewrite added_app by (by rewrite button_handler_draw with (q:=q) (post:=post)).
  rewrite button_handler_draw with (q:=q) (post:=post) by done.
  split; [|done]. intros ev Hin. unfold guarded_edit in Hin.
  destruct (tg _ (QueryEditMessageMedia _ _ _)); by members Hin.
Qed.

Lemma navigation_never_sends_witness :
  snd (button_handler edit_rejected cats_only str_basic (press "next") 0 0
         (st0 (UserData (Some "cats") None)))
  = Ret tt.
Proof.
  apply (navigation_never_sends edit_rejected cats_only str_basic
           (press "next") (mkQuery "next" 9) 0 0
           (st0 (UserData (Some "cats") None))).
  - reflexivity.
  - discriminate.
  - reflexivity.
  - vm_compute. discriminate.
Defined.

(** X13. "random" pressed when the subreddit then drawn has an empty
    entry: the shown message is left as it is, the failure text goes out as
    a new message, and [user_data] is unchanged. *)
Theorem random_on_empty_topic tg cache py_str update q r1 r2 s sub :
  callback_query update = Some q →
  data q = "random" →
  tg (events s) QueryAnswer = None →
  cache_get cache (last_sub (locals s)) ≠ [] →
  pick r1 SUBREDDITS = Some sub →
  cache_get cache (Some sub) = [] →
  button_handler tg cache py_str update r1 r2 s
  = (St (locals s)
       (events s
        ++ [Called QueryAnswer;
            Called (ReplyText
                      "Oops, something went wrong lol, try again later.")]),
     answer_of
       (tg (events s ++ [Called QueryAnswer])
          (ReplyText "Oops, something went wrong lol, try again later."))).
Proof.
  intros Hq Hact Ha Hposts Hsub Hempty.
  rewrite button_handler_random with (q:=q) by done.
  rewrite (send_random_post_empty _ _ _ _ _ _ _ _ sub) by done.
  cbn [locals events]. by rewrite <-app_assoc.
Qed.

Lemma random_on_empty_topic_witness :
  button_handler quiet cats_only str_basic (press "random") 3 0
    (st0 (UserData (Some "cats") (Some cat_post)))
  = (St (UserData (Some "cats") (Some cat_post))
       [Called QueryAnswer;
        Called (ReplyText "Oops, something went wrong lol, try again later.")],
     Ret tt).
Proof.
  apply (random_on_empty_topic quiet cats_only str_basic (press "random")
           (mkQuery "random" 9) 3 0
           (st0 (UserData (Some "cats") (Some cat_post))) "dogs").
  - reflexivity.
  - reflexivity.
  - reflexivity.
  - vm_compute. discriminate.
  - reflexivity.
  - vm_compute. reflexivity.
Defined.

(** X14. Over a well-formed cache (as every reachable one is), each photo a
    handler shows has a URL ending, once lowered, in .jpg, .jpeg, .png or
    .gif. *)
Theorem shown_photo_is_image tg cache py_str h update r1 r2 s ev photo caption :
  cache_ok cache →
  ev ∈ added (dispatch tg cache py_str h update r1 r2) s →
  rendering ev = Some (photo, caption) →
  ∃ ext stem, ext ∈ [".jpg"; ".jpeg"; ".png"; ".gif"]
              ∧ lower photo = stem +:+ ext.
Proof.
  intros Hok Hin Hr.
  destruct (dispatch_shape tg cache py_str h update r1 r2 s)
    as (evs & Hev & Hshape).
  rewrite (added_app _ _ _ Hev) in Hin. clear Hev.
  assert (∀ sub post, post ∈ cache_get cache (Some sub) →
                      has_image_suffix (post_url post)) as Himg.
  { intros sub post Hpost. destruct (Hok sub) as [_ Hall].
    rewrite Forall_forall in Hall. by apply Hall. }
  destruct Hshape as [|first Hf|first Hf| |first mid sub post Hf _ Hpost
                      |sub post _ Hpost].
  - by apply elem_of_nil in Hin.
  - apply in_first in Hf as [-> | ->]; members Hin; discriminate.
  - apply in_first in Hf as [-> | ->]; members Hin; discriminate.
  - members Hin; discriminate.
  - apply in_first in Hf as [-> | ->]; members Hin; try discriminate;
      rewrite rendering_render_request in Hr; injection Hr as <- <-;
      by eapply Himg.
  - unfold guarded_edit in Hin.
    destruct (tg _ (QueryEditMessageMedia _ _ _)); members Hin;
      try discriminate; injection Hr as <- <-; by eapply Himg.
Qed.

Lemma shown_photo_is_image_witness :
  ∃ ext stem, ext ∈ [".jpg"; ".jpeg"; ".png"; ".gif"]
              ∧ lower "http://x/a.jpg" = stem +:+ ext.
Proof.
  apply (shown_photo_is_image quiet
           (locals (fst (refresh_step http_cats "cats" (St reddit_cache_init []))))
           str_basic Start command 2 0 (st0 (UserData None None))
           (Called (ReplyPhoto "http://x/a.jpg" ("A cat" +:+ nl +:+ "/r/cats")
                      navigation_keyboard))
           "http://x/a.jpg" ("A cat" +:+ nl +:+ "/r/cats")).
  - apply reachable_cache_ok, reachable_step; [apply reachable_init|].
    do 2 right. left.
  - vm_compute. right. left.
  - reflexivity.
Defined.

Lemma cache_get_init o : cache_get reddit_cache_init o = [].
Proof.
  destruct o as [sub|]; [|done]. cbn [cache_get].
  rewrite reddit_cache_init_lookup. by case_decide.
Qed.

(** X15. Until a refresh has filled an entry, every lookup in the cache
    is empty: /start, whatever it draws, answers with the failure text, and
    every button press with the no-cached-posts notice; [user_data] is not
    written. *)
Theorem handlers_before_first_refresh tg py_str update r1 r2 s :
  (∀ o, cache_get reddit_cache_init o = [])
  ∧ (callback_query update = None →
     tg (events s) (ReplyText GREETING) = None →
     start tg reddit_cache_init py_str update r1 r2 s
     = (St (locals s)
          (events s ++ [Called (ReplyText GREETING); Called (ReplyText OOPS)]),
        answer_of (tg (events s ++ [Called (ReplyText GREETING)])
                     (ReplyText OOPS))))
  ∧ ∀ q,
      callback_query update = Some q →
      tg (events s) QueryAnswer = None →
      let r := QueryEditMessageCaption
                 ("No cached posts for r/" +:+ format_sub (last_sub (locals s))
                  +:+ ".") in
      button_handler tg reddit_cache_init py_str update r1 r2 s
      = (St (locals s) (events s ++ [Called QueryAnswer; Called r]),
         answer_of (tg (events s ++ [Called QueryAnswer]) r)).
Proof.
  split_and!.
  - apply cache_get_init.
  - intros Hm Hg. rewrite start_greets by done.
    destruct (pick_SUBREDDITS r1) as [sub Hsub].
    rewrite (send_random_post_empty _ _ _ _ _ _ _ _ sub)
      by (done || apply cache_get_init).
    cbn [locals events]. by rewrite <-app_assoc.
  - intros q Hq Ha r.
    by rewrite button_handler_no_posts with (q:=q)
      by (done || apply cache_get_init).
Qed.

Lemma handlers_before_first_refresh_witness :
  start quiet reddit_cache_init str_basic command 7 1 (st0 (UserData None None))
  = (St (UserData None None)
       [Called (ReplyText GREETING); Called (ReplyText OOPS)],
     Ret tt).
Proof.
  apply (proj1 (proj2 (handlers_before_first_refresh quiet str_basic command
                         7 1 (st0 (UserData None None)))));
    reflexivity.
Defined.

Lemma one_post_per_update_witness :
  navigation_keyboard
  = [ [ ("⬅️ Prev", "prev"); ("🔁 Random", "random"); ("➡️ Next", "next") ] ].
Proof.
  apply (proj2 (proj2 (one_post_per_update quiet cats_only str_basic Button
                         (press "next") 0 0
                         (st0 (UserData (Some "cats") None))))
           (Called (QueryEditMessageMedia "http://x/a.jpg"
                      ("A cat" +:+ nl +:+ "/r/cats") navigation_keyboard))).
  - vm_compute. right. left.
  - reflexivity.
Defined.

(* ===================================================================== *)
(** * Failures: of the fetch, and of a press without a session *)
(* ===================================================================== *)

Lemma fetched_walk http sub :
  fetched http sub = fst (walk (items_of (http (search_url sub)))).
Proof. rewrite fetched_items. by rewrite for_each_fetch_entry_run. Qed.

(** C3, as stated, fails: the second entry of the response is a number, the
    loop raises on it, the [except] logs "Failed to fetch", and yet the list
    returned is not empty: it holds the post of the first entry. *)
Lemma fetch_error_returns_posts :
  fetch_subreddit http_garbled "cats" (st0 [])
  = (St [cat_post]
       [Logged WARNING
          "Failed to fetch cats: 'int' object has no attribute 'get'"],
     Ret [cat_post])
  ∧ [cat_post] ≠ [].
Proof. split; [vm_compute; reflexivity|discriminate]. Qed.

(** C3, amended.  [fetch_subreddit] never raises: whatever the exchange, it
    returns the posts its loop had appended when it was left, and logs
    nothing or one warning.  When the session, the GET or [resp.json()]
    raises (network, timeout, JSON decoding), that list is empty.  When an
    entry of the decoded body cannot be read, it is the list of the posts of
    the entries before that one. *)
Theorem fetch_failure_returns_accepted http sub s :
  (∃ log,
     fetch_subreddit http sub s
     = (St (fst (walk (items_of (http (search_url sub))))) (events s ++ log),
        Ret (fst (walk (items_of (http (search_url sub))))))
     ∧ (log = []
        ∨ ∃ e, log = [Logged WARNING
                        ("Failed to fetch " +:+ sub +:+ ": " +:+ e)]))
  ∧ (∀ e,
       http (search_url sub) = GetRaises e
       ∨ http (search_url sub) = JsonRaises e →
       fetch_subreddit http sub s
       = (St [] (events s
                 ++ [Logged WARNING ("Failed to fetch " +:+ sub +:+ ": " +:+ e)]),
          Ret []))
  ∧ ∀ d good bad rest e,
      http (search_url sub) = Decoded (PDict d) →
      default (PList []) (assoc "data" d) = PList (good ++ bad :: rest) →
      Forall (λ item, entry_error item = None) good →
      entry_error bad = Some e →
      fetch_subreddit http sub s
      = (St (omap entry_post good)
           (events s
            ++ [Logged WARNING ("Failed to fetch " +:+ sub +:+ ": " +:+ e)]),
         Ret (omap entry_post good)).
Proof.
  split_and!.
  - rewrite fetch_subreddit_run, fetched_walk. exists (fetch_log http sub).
    split; [done|]. apply fetch_log_cases.
  - intros e He. rewrite fetch_subreddit_run.
    by destruct (fetched_failure http sub e He) as [-> ->].
  - intros d good bad rest e Hx Hd Hgood Hbad.
    rewrite (fetch_subreddit_of_try http sub s (omap entry_post good) (Raise e));
      [done|].
    rewrite (fetch_try_list http _ d (good ++ bad :: rest)) by done.
    rewrite for_each_fetch_entry_run.
    by rewrite (walk_unreadable good bad rest e).
Qed.

Lemma fetch_failure_returns_accepted_witness :
  fetch_subreddit http_down "cats" (st0 [])
  = (St [] [Logged WARNING
              ("Failed to fetch " +:+ "cats" +:+ ": "
               +:+ "Cannot connect to host api.pullpush.io:443")],
     Ret [])
  ∧ fetch_subreddit http_garbled "cats" (st0 [])
    = (St [cat_post]
         [Logged WARNING
            ("Failed to fetch " +:+ "cats" +:+ ": "
             +:+ "'int' object has no attribute 'get'")],
       Ret [cat_post]).
Proof.
  split.
  - apply (proj1 (proj2 (fetch_failure_returns_accepted http_down "cats"
                           (st0 [])))
             "Cannot connect to host api.pullpush.io:443").
    left. reflexivity.
  - apply (proj2 (proj2 (fetch_failure_returns_accepted http_garbled "cats"
                           (st0 [])))
             [("data", PList [cat_entry; PInt 7; cat_entry])]
             [cat_entry] (PInt 7) [cat_entry]
             "'int' object has no attribute 'get'").
    + reflexivity.
    + reflexivity.
    + repeat constructor.
    + reflexivity.
Defined.

(** C6, as stated, fails: "cats" holds two posts; its fetch fails on the
    second entry of the response ("Failed to fetch" is logged) after one
    post was accepted, and the refresh step overwrites the entry with that
    one post. *)
Lemma fetch_failure_may_overwrite_entry :
  cache_get two_cats (Some "cats") = [cat_post; bare_post]
  ∧ refresh_step http_garbled "cats" (St two_cats [])
    = (St (<["cats" := [cat_post]]> two_cats)
         [Logged WARNING
            "Failed to fetch cats: 'int' object has no attribute 'get'";
          Logged INFO "Fetched 1 posts from r/cats"],
       Ret tt)
  ∧ cache_get (<["cats" := [cat_post]]> two_cats) (Some "cats") = [cat_post]
  ∧ [cat_post] ≠ [cat_post; bare_post].
Proof.
  split_and!.
  - reflexivity.
  - unfold refresh_step, bind, scoped. rewrite fetch_subreddit_run.
    assert (fetched http_garbled "cats" = [cat_post]) as -> by reflexivity.
    assert (fetch_log http_garbled "cats"
            = [Logged WARNING
                 "Failed to fetch cats: 'int' object has no attribute 'get'"])
      as -> by reflexivity.
    reflexivity.
  - reflexivity.
  - discriminate.
Qed.

(** C6, amended.  Whatever happens to the fetch of [T], the refresh step of
    [T] and the whole pass return normally, and the step stores what the
    fetch returned if, and only if, that list is not empty.  So a failure
    of the session, the GET or [resp.json()] leaves the whole cache, and
    the entry of [T] after the pass, as they were; a failure on an entry of
    the decoded body leaves the cache as it was when no post was accepted
    before that entry, and otherwise overwrites the entry of [T] with the
    posts accepted before it.  The entry of any other topic after the pass
    is what it would be had the exchange for [T] gone any other way. *)
Theorem fetch_failure_cache_entry http T (cache : gmap string (list Post)) evs :
  (∀ P, snd (fetch_subreddit http T (St [] evs)) = Ret P →
        ∃ log, refresh_step http T (St cache evs)
               = (St (match P with [] => cache | _ :: _ => <[T := P]> cache end)
                    (evs ++ log),
                  Ret tt))
  ∧ (∃ evs', update_all_subreddits http (St cache evs)
             = (St (cache_after http cache) evs', Ret tt))
  ∧ (∀ e,
       http (search_url T) = GetRaises e ∨ http (search_url T) = JsonRaises e →
       refresh_step http T (St cache evs)
       = (St cache
            (evs ++ [Logged WARNING ("Failed to fetch " +:+ T +:+ ": " +:+ e);
                     Logged INFO ("No posts found for r/" +:+ T)]),
          Ret tt)
       ∧ cache_after http cache !! T = cache !! T)
  ∧ (∀ d good bad rest e,
       http (search_url T) = Decoded (PDict d) →
       default (PList []) (assoc "data" d) = PList (good ++ bad :: rest) →
       Forall (λ item, entry_error item = None) good →
       entry_error bad = Some e →
       locals (fst (refresh_step http T (St cache evs)))
       = match omap entry_post good with
         | [] => cache
         | _ :: _ => <[T := omap entry_post good]> cache
         end)
  ∧ ∀ http' T',
      T' ≠ T →
      (∀ url, url ≠ search_url T → http' url = http url) →
      cache_after http' cache !! T' = cache_after http cache !! T'.
Proof.
  split_and!.
  - rewrite fetch_subreddit_run. intros P [= <-].
    destruct (refresh_step_run http T (St cache evs)) as [log ->].
    exists log. unfold refreshed. cbn [locals events].
    by destruct (fetched http T).
  - destruct (update_all_subreddits_run http (St cache evs)) as [e1 H1].
    destruct (update_all_subreddits_run http (st0 cache)) as [e2 H2].
    unfold cache_after. rewrite H1, H2. by eexists.
  - intros e He. destruct (fetched_failure http T e He) as [Hf Hl]. split.
    + unfold refresh_step, bind, scoped. rewrite fetch_subreddit_run, Hf, Hl.
      unfold logger_info, emit; simpl. by rewrite <-app_assoc.
    + rewrite cache_after_lookup, Hf. rewrite decide_False; [done|].
      by intros [_ ?].
  - intros d good bad rest e Hx Hd Hgood Hbad.
    destruct (refresh_step_run http T (St cache evs)) as [log ->].
    cbn [fst locals]. unfold refreshed.
    assert (fetched http T = omap entry_post good) as ->;
      [|by destruct (omap entry_post good)].
    rewrite fetched_walk, Hx. cbn [items_of]. rewrite Hd.
    by rewrite (walk_unreadable good bad rest e).
  - intros http' T' HT Hagree. rewrite !cache_after_lookup.
    assert (fetched http' T' = fetched http T') as ->; [|done].
    apply fetched_ext, Hagree. intros Heq. by apply HT, search_url_inj.
Qed.

Lemma fetch_failure_cache_entry_witness :
  cache_after http_down cats_only !! "cats" = cats_only !! "cats"
  ∧ locals (fst (refresh_step http_garbled "cats" (St two_cats [])))
    = <["cats" := [cat_post]]> two_cats.
Proof.
  split.
  - refine (proj2 (proj1 (proj2 (proj2
              (fetch_failure_cache_entry http_down "cats" cats_only [])))
              "Cannot connect to host api.pullpush.io:443" _)).
    left. reflexivity.
  - apply (proj1 (proj2 (proj2 (proj2
              (fetch_failure_cache_entry http_garbled "cats" two_cats []))))
             [("data", PList [cat_entry; PInt 7; cat_entry])]
             [cat_entry] (PInt 7) [cat_entry]
             "'int' object has no attribute 'get'").
    + reflexivity.
    + reflexivity.
    + repeat constructor.
    + reflexivity.
Defined.

(** C10, as stated, fails: a press without a session on a platform where
    the callback query has expired makes [button_handler] raise, at
    [query.answer()]. *)
Lemma button_without_session_may_raise :
  button_handler answer_expired cats_only str_basic (press "prev") 0 0
    (st0 (UserData None None))
  = (St (UserData None None) [Called QueryAnswer],
     Raise "Query is too old and response timeout expired or query id is invalid").
Proof. reflexivity. Qed.

(** C10, amended.  A button press arriving while "last_sub" is absent from
    [context.user_data] never writes [user_data], and raises only what
    [query.answer()] or the caption edit raises, neither being in a [try]:
    if [query.answer()] raises, nothing else is requested; otherwise the
    handler asks for the caption "No cached posts for r/None." and nothing
    else, and returns normally when the platform accepts that edit. *)
Theorem button_without_session tg cache py_str update q r1 r2 last evs :
  callback_query update = Some q →
  button_handler tg cache py_str update r1 r2 (St (UserData None last) evs)
  = match tg evs QueryAnswer with
    | Some e =>
        (St (UserData None last) (evs ++ [Called QueryAnswer]), Raise e)
    | None =>
        (St (UserData None last)
           (evs ++ [Called QueryAnswer;
                    Called (QueryEditMessageCaption
                              "No cached posts for r/None.")]),
         match tg (evs ++ [Called QueryAnswer])
                 (QueryEditMessageCaption "No cached posts for r/None.") with
         | Some e => Raise e
         | None => Ret tt
         end)
    end.
Proof.
  intros Hq. destruct (tg evs QueryAnswer) as [e|] eqn:Ha.
  - by rewrite button_handler_answer_raises with (q:=q) (e:=e).
  - rewrite button_handler_no_posts with (q:=q) by done.
    cbn [locals events last_sub format_sub].
    change ("No cached posts for r/" +:+ "None" +:+ ".")
      with "No cached posts for r/None.".
    by destruct (tg _ (QueryEditMessageCaption _)).
Qed.

Lemma button_without_session_witness :
  button_handler quiet cats_only str_basic (press "prev") 0 0
    (st0 (UserData None None))
  = (St (UserData None None)
       [Called QueryAnswer;
        Called (QueryEditMessageCaption "No cached posts for r/None.")],
     Ret tt).
Proof.
  apply (button_without_session quiet cats_only str_basic (press "prev")
           (mkQuery "prev" 9) 0 0 None []).
  reflexivity.
Defined.
